(** * WebControl/mac2ip.py: parsing the output of [arp -a]

    A shallow embedding of [get_ip_from_mac] and [list_arp_table], together
    with the parts of the Python runtime they rely on: the [str] methods
    [lower], [replace] and [splitlines], and the backtracking matcher behind
    [re.search] for the one pattern the script uses.

    Text is a list of code points.  The code points are those below 256
    (the Latin-1 range, carried by [ascii]); on that range the character
    tables below are the ones of CPython's Unicode database.

    The two functions proper take the text that the read of the command
    returned; the read itself, which raises on bytes that do not decode,
    is [popen_read], and [list_arp_table_call] and [get_ip_from_mac_call]
    are the calls as a whole. *)

From Stdlib Require Import List Ascii Bool Arith NArith Lia.
From Stdlib Require String.
Import ListNotations String.StringSyntax.
Delimit Scope string_scope with string.

Open Scope list_scope.

(** ** Text and code points *)

Definition str := list ascii.

Definition text (s : String.string) : str := String.list_ascii_of_string s.
Arguments text s%_string.

Definition code (c : ascii) : nat := nat_of_ascii c.

Definition between (lo hi : nat) (c : ascii) : bool :=
  (lo <=? code c) && (code c <=? hi).

Fixpoint str_eqb (a b : str) : bool :=
  match a, b with
  | [], [] => true
  | x :: a', y :: b' => Ascii.eqb x y && str_eqb a' b'
  | _, _ => false
  end.

(** ** The Unicode database, restricted to code points below 256 *)

Module Uni.

(** [Py_UNICODE_ISDECIMAL]: what [\d] matches in a [str] pattern. *)
Definition isdecimal (c : ascii) : bool := between 48 57 c.

(** [Py_UNICODE_ISSPACE]: what [\s] matches in a [str] pattern. *)
Definition isspace (c : ascii) : bool :=
  between 9 13 c || between 28 32 c || between 133 133 c
  || between 160 160 c.

(** [Py_UNICODE_ISALNUM]: alphabetic, decimal, digit or numeric. *)
Definition isalnum (c : ascii) : bool :=
  between 48 57 c || between 65 90 c || between 97 122 c
  || between 170 170 c || between 178 179 c || between 181 181 c
  || between 185 186 c || between 188 190 c || between 192 214 c
  || between 216 246 c || between 248 255 c.

(** What [\w] matches in a [str] pattern: alphanumerics and the
    underscore. *)
Definition isword (c : ascii) : bool := isalnum c || between 95 95 c.

(** [Py_UNICODE_ISLINEBREAK]: the line boundaries of [str.splitlines]. *)
Definition islinebreak (c : ascii) : bool :=
  between 10 13 c || between 28 30 c || between 133 133 c.

(** [Py_UNICODE_TOLOWER]. *)
Definition tolower (c : ascii) : ascii :=
  if between 65 90 c || between 192 214 c || between 216 222 c
  then ascii_of_nat (code c + 32)
  else c.

End Uni.

(** ** Methods of [str] *)

Module PyStr.

(** [s.lower()] *)
Definition lower (s : str) : str := map Uni.tolower s.

(** [s.replace(old, new)] for one-character [old] and [new]. *)
Definition replace (old new : ascii) (s : str) : str :=
  map (fun c => if Ascii.eqb c old then new else c) s.
Arguments replace (old new)%_char s.

(** [s[a:b]] for [0 <= a]. *)
Definition slice (s : str) (a b : nat) : str := firstn (b - a) (skipn a s).

(** The loop of [s.splitlines()]: [cur] holds, reversed, the characters
    of the line being read.  A carriage return directly followed by a
    line feed is one boundary; a last line without a boundary after it
    is kept only if it is not empty. *)
Fixpoint splitlines_from (cur : str) (s : str) : list str :=
  match s with
  | [] => match cur with [] => [] | _ => [rev cur] end
  | c :: s' =>
      if Uni.islinebreak c then
        match s' with
        | d :: s'' =>
            if Ascii.eqb c "013"%char && Ascii.eqb d "010"%char
            then rev cur :: splitlines_from [] s''
            else rev cur :: splitlines_from [] s'
        | [] => rev cur :: splitlines_from [] s'
        end
      else splitlines_from (c :: cur) s'
  end.

Definition splitlines (s : str) : list str := splitlines_from [] s.

End PyStr.

(** ** The matcher behind [re.search] *)

Module Re.

Inductive category := Digit | Space | Word.

(** A member of a character set: a literal or a category escape. *)
Inductive atom :=
| Chr (c : ascii)
| Cat (k : category).
Arguments Chr c%_char.

(** A compiled pattern is a sequence of items.  [Mark] records the
    current position: group [g] is delimited by marks [2*(g-1)] and
    [2*(g-1)+1], as in the compiled form of the [sre] engine. *)
Inductive item :=
| One (a : atom)
| Plus (set : list atom)
| Mark (i : nat).

Definition GroupOpen (g : nat) : item := Mark (2 * (g - 1)).
Definition GroupClose (g : nat) : item := Mark (2 * (g - 1) + 1).

Definition in_category (k : category) (c : ascii) : bool :=
  match k with
  | Digit => Uni.isdecimal c
  | Space => Uni.isspace c
  | Word => Uni.isword c
  end.

Definition atom_match (a : atom) (c : ascii) : bool :=
  match a with
  | Chr x => Ascii.eqb c x
  | Cat k => in_category k c
  end.

Definition in_set (set : list atom) (c : ascii) : bool :=
  existsb (fun a => atom_match a c) set.

(** Length of the longest prefix of [s] made of characters in [f]. *)
Fixpoint span (f : ascii -> bool) (s : str) : nat :=
  match s with
  | c :: s' => if f c then S (span f s') else 0
  | [] => 0
  end.

(** Greedy repetition with backtracking: the tail of the pattern is
    tried after [n] repetitions, then [n-1], down to one. *)
Fixpoint try_longest {R : Type} (k : nat -> option R) (n : nat) : option R :=
  match n with
  | 0 => None
  | S n' =>
      match k (S n') with
      | Some r => Some r
      | None => try_longest k n'
      end
  end.

Definition marks := list (nat * nat).

(** Match pattern [p] against [s], the text from position [pos] on.
    Returns the end position and the marks, newest first. *)
Fixpoint exec (p : list item) (s : str) (pos : nat) (mk : marks)
  : option (nat * marks) :=
  match p with
  | [] => Some (pos, mk)
  | One a :: p' =>
      match s with
      | c :: s' => if atom_match a c then exec p' s' (S pos) mk else None
      | [] => None
      end
  | Plus set :: p' =>
      try_longest (fun n => exec p' (skipn n s) (pos + n) mk)
                  (span (in_set set) s)
  | Mark i :: p' => exec p' s pos ((i, pos) :: mk)
  end.

(** A match object: the subject string, the span of the whole match
    and the marks of the groups. *)
Record match_obj := {
  m_string : str;
  m_start : nat;
  m_end : nat;
  m_marks : marks
}.

(** [re.search]: the first start position, from the left, at which the
    pattern matches; the position after the last character is tried
    too. *)
Fixpoint search_from (p : list item) (subject s : str) (pos : nat)
  : option match_obj :=
  match exec p s pos [] with
  | Some (e, mk) =>
      Some {| m_string := subject; m_start := pos; m_end := e;
              m_marks := mk |}
  | None =>
      match s with
      | [] => None
      | _ :: s' => search_from p subject s' (S pos)
      end
  end.

Definition search (p : list item) (s : str) : option match_obj :=
  search_from p s s 0.

Fixpoint lookup_mark (i : nat) (mk : marks) : option nat :=
  match mk with
  | [] => None
  | (j, pos) :: mk' => if i =? j then Some pos else lookup_mark i mk'
  end.

(** Number of capturing groups of a pattern. *)
Fixpoint ngroups (p : list item) : nat :=
  match p with
  | [] => 0
  | Mark i :: p' => (if Nat.even i then 1 else 0) + ngroups p'
  | _ :: p' => ngroups p'
  end.

(** [m.group(g)]: [None] for a group that took no part in the match. *)
Definition group (m : match_obj) (g : nat) : option str :=
  match lookup_mark (2 * (g - 1)) (m_marks m),
        lookup_mark (2 * (g - 1) + 1) (m_marks m) with
  | Some a, Some b => Some (PyStr.slice (m_string m) a b)
  | _, _ => None
  end.

(** [m.groups()] for a match of pattern [p]. *)
Definition groups (p : list item) (m : match_obj) : list (option str) :=
  map (group m) (seq 1 (ngroups p)).

End Re.

(** ** The script *)

Module Mac2ip.

Import Re.

Inductive exn :=
| AttributeError
| ValueError
| UnicodeDecodeError
| UnicodeEncodeError.

Inductive result (A : Type) :=
| Ok (a : A)
| Raise (e : exn).
Arguments Ok {A} a.
Arguments Raise {A} e.

Definition bind {A B : Type} (r : result A) (f : A -> result B) : result B :=
  match r with
  | Ok a => f a
  | Raise e => Raise e
  end.

Notation "x <- r ;; k" := (bind r (fun x => k))
  (at level 61, r at next level, right associativity).
Notation "' pat <- r ;; k" := (bind r (fun x => match x with pat => k end))
  (at level 61, pat pattern, r at next level, right associativity).

(** [a, b = t]: unpacking a tuple that does not have two members raises
    [ValueError]. *)
Definition unpack2 {A : Type} (t : list A) : result (A * A) :=
  match t with
  | [a; b] => Ok (a, b)
  | _ => Raise ValueError
  end.

(** [v.lower()] on a value that is a string or [None]. *)
Definition lower_of (v : option str) : result str :=
  match v with
  | Some s => Ok (PyStr.lower s)
  | None => Raise AttributeError
  end.

(** [r'(\d+\.\d+\.\d+\.\d+)\s+([-\w:]+)'] *)
Definition arp_pattern : list item :=
  [ GroupOpen 1;
      Plus [Cat Digit]; One (Chr "."); Plus [Cat Digit]; One (Chr ".");
      Plus [Cat Digit]; One (Chr "."); Plus [Cat Digit];
    GroupClose 1;
    Plus [Cat Space];
    GroupOpen 2;
      Plus [Chr "-"; Cat Word; Chr ":"];
    GroupClose 2 ].

(** [.lower().replace('-', ':')] *)
Definition normalize (mac : str) : str :=
  PyStr.replace "-" ":" (PyStr.lower mac).

(** The body of the [for] loop of [get_ip_from_mac], over the lines
    still to be read; leaving the loop returns [None]. *)
Fixpoint get_ip_loop (target_mac : str) (lines : list str)
  : result (option str) :=
  match lines with
  | [] => Ok None
  | line :: rest =>
      match search arp_pattern line with
      | Some m =>
          '(ip, mac) <- unpack2 (groups arp_pattern m) ;;
          mac <- lower_of mac ;;
          let mac := PyStr.replace "-" ":" mac in
          if str_eqb mac target_mac then Ok ip
          else get_ip_loop target_mac rest
      | None => get_ip_loop target_mac rest
      end
  end.

(** [get_ip_from_mac(target_mac)], where [arp_output] is what
    [os.popen('arp -a').read()] returned. *)
Definition get_ip_from_mac (arp_output : str) (target_mac : str)
  : result (option str) :=
  let target_mac := PyStr.replace "-" ":" (PyStr.lower target_mac) in
  get_ip_loop target_mac (PyStr.splitlines arp_output).

(** A member of [devices]: the tuple [(ip, mac)], where [ip] is what
    group 1 of the match holds, a string or [None]. *)
Definition device : Type := option str * str.

(** The body of the [for] loop of [list_arp_table]; [devices] is the
    list built so far. *)
Fixpoint list_arp_loop (devices : list device) (lines : list str)
  : result (list device) :=
  match lines with
  | [] => Ok devices
  | line :: rest =>
      match search arp_pattern line with
      | Some m =>
          '(ip, mac) <- unpack2 (groups arp_pattern m) ;;
          mac <- lower_of mac ;;
          let mac := PyStr.replace "-" ":" mac in
          list_arp_loop (devices ++ [(ip, mac)]) rest
      | None => list_arp_loop devices rest
      end
  end.

(** [list_arp_table()], where [arp_output] is what
    [os.popen('arp -a').read()] returned. *)
Definition list_arp_table (arp_output : str) : result (list device) :=
  list_arp_loop [] (PyStr.splitlines arp_output).

End Mac2ip.

Import Mac2ip.

(** ** Vocabulary of the statements *)

(** A non-empty run of characters of class [f]. *)
Definition run (f : ascii -> bool) (d : str) : Prop :=
  d <> [] /\ forallb f d = true.

(** Four non-empty runs of decimal digits separated by dots. *)
Definition dotted_quad (ip : str) : Prop :=
  exists d1 d2 d3 d4,
    run Uni.isdecimal d1 /\ run Uni.isdecimal d2 /\
    run Uni.isdecimal d3 /\ run Uni.isdecimal d4 /\
    ip = d1 ++ "."%char :: d2 ++ "."%char :: d3 ++ "."%char :: d4.

(** The characters of the set [[-\w:]]. *)
Definition ismacchar (c : ascii) : bool :=
  Ascii.eqb c "-" || Uni.isword c || Ascii.eqb c ":".

(** The uppercase letters [A] to [Z]. *)
Definition isasciiupper (c : ascii) : bool := between 65 90 c.

(** Whitespace that does not end a line. *)
Definition isblank (c : ascii) : bool :=
  Uni.isspace c && negb (Uni.islinebreak c).

(** The line contains a dotted quad, then whitespace, then a token of
    characters of [[-\w:]]. *)
Definition has_ip_then_token (line : str) : Prop :=
  exists pre ip ws tok post,
    line = pre ++ ip ++ ws ++ tok ++ post /\
    dotted_quad ip /\ run Uni.isspace ws /\ run ismacchar tok.

(** [tok] is a token that follows a dotted quad and whitespace in [line],
    and ends where the characters of [[-\w:]] end. *)
Definition token_after_ip (line tok : str) : Prop :=
  exists pre ip ws post,
    line = pre ++ ip ++ ws ++ tok ++ post /\
    dotted_quad ip /\ run Uni.isspace ws /\ run ismacchar tok /\
    Re.span ismacchar post = 0.

Definition ishex (c : ascii) : bool :=
  between 48 57 c || between 65 70 c || between 97 102 c.

Definition islowerhex (c : ascii) : bool :=
  between 48 57 c || between 97 102 c.

Definition isseparator (c : ascii) : bool :=
  Ascii.eqb c ":" || Ascii.eqb c "-".

(** Non-empty groups of hexadecimal digits with one [:] or [-] between
    two groups; [in_group] tells that the previous character was a
    digit of a group. *)
Fixpoint hex_groups_from (in_group : bool) (s : str) : bool :=
  match s with
  | [] => in_group
  | c :: s' =>
      if ishex c then hex_groups_from true s'
      else if isseparator c then in_group && hex_groups_from false s'
      else false
  end.

Definition hex_group_token (tok : str) : bool := hex_groups_from false tok.

(** [n] groups of two lowercase hexadecimal digits with a colon between
    two groups. *)
Fixpoint colon_groups (n : nat) (s : str) : bool :=
  match n, s with
  | S n', a :: b :: rest =>
      islowerhex a && islowerhex b &&
      match rest with
      | [] => n' =? 0
      | c :: rest' => Ascii.eqb c ":" && colon_groups n' rest'
      end
  | _, _ => false
  end.

(** The canonical form [xx:xx:xx:xx:xx:xx]. *)
Definition is_canonical_mac (mac : str) : bool := colon_groups 6 mac.

(** *** Spellings of a 48-bit address *)

Definition hex_digit (upper : bool) (v : nat) : ascii :=
  nth (v mod 16)
      (text (if upper then "0123456789ABCDEF" else "0123456789abcdef"))
      "0"%char.

(** The [i]-th hexadecimal digit of [m], the most significant first. *)
Definition nibble (m : N) (i : nat) : nat :=
  N.to_nat ((m / 16 ^ N.of_nat (11 - i)) mod 16).

(** How an address is written: which digits are in upper case and which
    separators are dashes. *)
Record spelling := {
  upper : nat -> bool;
  dash : nat -> bool
}.

Definition spell_octet (sp : spelling) (m : N) (i : nat) : str :=
  [ hex_digit (upper sp (2 * i)) (nibble m (2 * i));
    hex_digit (upper sp (2 * i + 1)) (nibble m (2 * i + 1)) ].

Definition separator (sp : spelling) (i : nat) : ascii :=
  if dash sp i then "-"%char else ":"%char.

(** Octets [i], [i+1], ... [i+n], with a separator between two octets. *)
Fixpoint spell_from (sp : spelling) (m : N) (i n : nat) : str :=
  match n with
  | 0 => spell_octet sp m i
  | S n' => spell_octet sp m i ++ separator sp i :: spell_from sp m (S i) n'
  end.

Definition spell (sp : spelling) (m : N) : str := spell_from sp m 0 5.

Definition canonical_spelling : spelling :=
  {| upper := fun _ => false; dash := fun _ => false |}.

(** *** Lines and the pairs they give *)

Definition line_matches (line : str) : bool :=
  match Re.search arp_pattern line with
  | Some _ => true
  | None => false
  end.

(** [dev] is the pair of [line]: the two groups of the match, the second
    one normalized. *)
Definition pair_of_line (line : str) (dev : device) : Prop :=
  exists m ip mac,
    Re.search arp_pattern line = Some m /\
    Re.groups arp_pattern m = [Some ip; Some mac] /\
    dev = (Some ip, normalize mac).

(** [p] is made of the two groups of the match of [line]. *)
Definition groups_of_line (line : str) (p : str * str) : Prop :=
  exists m,
    Re.search arp_pattern line = Some m /\
    Re.groups arp_pattern m = [Some (fst p); Some (snd p)].

(** The groups of the match of a line, before normalization. *)
Definition parse_line (line : str) : option (str * str) :=
  match Re.search arp_pattern line with
  | Some m =>
      match Re.groups arp_pattern m with
      | [Some ip; Some mac] => Some (ip, mac)
      | _ => None
      end
  | None => None
  end.

Definition parsed_lines (lines : list str) : list (str * str) :=
  flat_map (fun line => match parse_line line with
                        | Some p => [p]
                        | None => []
                        end)
           lines.

(** The parsed (IP, MAC) pairs of an output, in the order of its lines. *)
Definition parsed_pairs (arp_output : str) : list (str * str) :=
  parsed_lines (PyStr.splitlines arp_output).

(** The pair stored for a parsed pair: the MAC is normalized. *)
Definition device_of (p : str * str) : device :=
  (Some (fst p), normalize (snd p)).

(** The line, read alone, adds a pair to the list. *)
Definition produces_pair (line : str) : Prop :=
  exists dev, list_arp_loop [] [line] = Ok [dev].

(** What normalization does to one character. *)
Definition normalize_char (c : ascii) : ascii :=
  if Ascii.eqb (Uni.tolower c) "-" then ":"%char else Uni.tolower c.

(** Lookup as the specification words it: the IP of the first element
    whose mac equals [target]; [None] when there is none. *)
Fixpoint lookup_device (target : str) (devices : list device) : option str :=
  match devices with
  | [] => None
  | (ip, mac) :: rest =>
      if str_eqb mac target then ip else lookup_device target rest
  end.

(** ** The example usage that closes the script *)

(** The line feed that [print] writes after its argument. *)
Definition LF : ascii := "010"%char.

(** [str(v)], which is also how an f-string formats [v], for a value
    that is a string or [None]. *)
Definition py_str (v : option str) : str :=
  match v with
  | Some s => s
  | None => text "None"
  end.

(** [f"IP: {ip}  MAC: {mac}"] *)
Definition device_line (d : device) : str :=
  text "IP: " ++ py_str (fst d) ++ text "  MAC: " ++ snd d.

(** ** The platform: reading the command, writing to the terminal *)

(** What the text layer of the pipe of [os.popen] makes of the bytes the
    command wrote: the text, decoded with the codec of the locale and
    with its line endings translated, or nothing when the bytes do not
    decode.  The codec belongs to the platform, not to the script. *)
Definition codec : Type := list Byte.byte -> option str.

(** [os.popen('arp -a').read()], where [raw] is what the command wrote:
    bytes that do not decode raise [UnicodeDecodeError]. *)
Definition popen_read (decode : codec) (raw : list Byte.byte) : result str :=
  match decode raw with
  | Some arp_output => Ok arp_output
  | None => Raise UnicodeDecodeError
  end.

(** A call of [list_arp_table()]: the read, then the loop. *)
Definition list_arp_table_call (decode : codec) (raw : list Byte.byte)
  : result (list device) :=
  arp_output <- popen_read decode raw ;;
  list_arp_table arp_output.

(** A call of [get_ip_from_mac(target_mac)]: the read, then the loop. *)
Definition get_ip_from_mac_call (decode : codec) (raw : list Byte.byte)
           (target_mac : str) : result (option str) :=
  arp_output <- popen_read decode raw ;;
  get_ip_from_mac arp_output target_mac.

(** Universal newlines: a carriage return, alone or before a line feed,
    is read as a line feed. *)
Fixpoint universal_newlines (s : str) : str :=
  match s with
  | [] => []
  | c :: s' =>
      if Ascii.eqb c "013" then
        match s' with
        | d :: s'' =>
            if Ascii.eqb d "010" then LF :: universal_newlines s''
            else LF :: universal_newlines s'
        | [] => [LF]
        end
      else c :: universal_newlines s'
  end.

(** The codec [ascii], as the locale [C] has it: bytes from 128 on do
    not decode. *)
Definition ascii_codec : codec :=
  fun raw =>
    if forallb (fun b => N.ltb (Byte.to_N b) 128) raw
    then Some (universal_newlines (map ascii_of_byte raw))
    else None.

(** The bytes of a string literal. *)
Definition octets (s : String.string) : list Byte.byte :=
  String.list_byte_of_string s.
Arguments octets s%_string.

(** [print(line)], on the text written so far: the line and a line feed
    are written, unless [sys.stdout] cannot encode the line, which
    raises [UnicodeEncodeError] and writes nothing. *)
Definition print (encodable : str -> bool) (stdout line : str)
  : str * option exn :=
  if encodable line then (stdout ++ line ++ [LF], None)
  else (stdout, Some UnicodeEncodeError).

(** [for ip, mac in devices: print(f"IP: {ip}  MAC: {mac}")] *)
Fixpoint print_devices (encodable : str -> bool) (stdout : str)
         (devices : list device) : str * option exn :=
  match devices with
  | [] => (stdout, None)
  | d :: rest =>
      match print encodable stdout (device_line d) with
      | (stdout', None) => print_devices encodable stdout' rest
      | stopped => stopped
      end
  end.

(** The statements at the end of the module.  Each of the two calls runs
    the command again: [raw1] is what the first run wrote and [raw2] what
    the second wrote.  The result is the text written to [sys.stdout]
    and the exception that ended the run, if one did. *)
Definition main (decode : codec) (encodable : str -> bool)
           (raw1 raw2 : list Byte.byte) : str * option exn :=
  match list_arp_table_call decode raw1 with
  | Raise e => ([], Some e)
  | Ok devices =>
      match print_devices encodable [] devices with
      | (stdout, None) =>
          match get_ip_from_mac_call decode raw2
                                     (text "00:11:22:33:44:55") with
          | Raise e => (stdout, Some e)
          | Ok found => print encodable stdout (py_str found)
          end
      | stopped => stopped
      end
  end.

(** ** Tables of well-formed entries *)

(** An entry of an ARP table as a line of text: what precedes the
    address, the address, the gap, the MAC and how it is spelled, and
    what follows. *)
Record entry := {
  e_lead : str;
  e_ip : str;
  e_gap : str;
  e_spelling : spelling;
  e_mac : N;
  e_trail : str
}.

Definition no_linebreak (s : str) : Prop :=
  forallb (fun c => negb (Uni.islinebreak c)) s = true.

Definition no_decimal (s : str) : Prop :=
  forallb (fun c => negb (Uni.isdecimal c)) s = true.

(** The lead has no digit, the address is a dotted quad, the gap is
    whitespace, the trail does not continue the MAC, and nothing ends
    the line. *)
Definition entry_ok (e : entry) : Prop :=
  no_decimal (e_lead e) /\ no_linebreak (e_lead e) /\
  dotted_quad (e_ip e) /\ run isblank (e_gap e) /\
  Re.span ismacchar (e_trail e) = 0 /\ no_linebreak (e_trail e).

Definition render_entry (e : entry) : str :=
  e_lead e ++ e_ip e ++ e_gap e ++ spell (e_spelling e) (e_mac e)
  ++ e_trail e.

(** The entries, each on a line of its own. *)
Definition render_table (es : list entry) : str :=
  flat_map (fun e => render_entry e ++ [LF]) es.

(** The pair an entry stands for. *)
Definition entry_device (e : entry) : device :=
  (Some (e_ip e), spell canonical_spelling (e_mac e)).

(** A line as Windows prints it, and a bare one. *)
Definition windows_entry : entry :=
  {| e_lead := text "  "; e_ip := text "192.168.1.1";
     e_gap := text "          ";
     e_spelling := {| upper := fun _ => true; dash := fun _ => true |};
     e_mac := 0x001A2B3C4D5E%N; e_trail := text "     dynamic" |}.

Definition bare_entry : entry :=
  {| e_lead := []; e_ip := text "10.0.0.7"; e_gap := text " ";
     e_spelling := canonical_spelling;
     e_mac := 0xAABBCCDDEEFF%N; e_trail := [] |}.

Definition sample_table : list entry := [windows_entry; bare_entry].

(** ** Proof tools *)

Ltac each_char c :=
  destruct c as [[|] [|] [|] [|] [|] [|] [|] [|]];
  vm_compute; try reflexivity; try discriminate; intros;
  try discriminate; try reflexivity.

Ltac lengths := repeat (rewrite length_app || cbn [length]); lia.

(** * Facts about the runtime *)

(** ** Characters *)

Section Characters.

Lemma space_not_decimal (c : ascii) :
  Uni.isspace c = true -> Uni.isdecimal c = false.
Proof. each_char c. Qed.

Lemma macchar_not_space (c : ascii) :
  ismacchar c = true -> Uni.isspace c = false.
Proof. each_char c. Qed.

Lemma lowerhex_fixed (c : ascii) :
  islowerhex c = true ->
  Uni.tolower c = c /\ Ascii.eqb c "-" = false.
Proof. each_char c; split; reflexivity. Qed.

Lemma in_set_digit (c : ascii) :
  Re.in_set [Re.Cat Re.Digit] c = Uni.isdecimal c.
Proof. apply orb_false_r. Qed.

Lemma in_set_space (c : ascii) :
  Re.in_set [Re.Cat Re.Space] c = Uni.isspace c.
Proof. apply orb_false_r. Qed.

Lemma in_set_mac (c : ascii) :
  Re.in_set [Re.Chr "-"; Re.Cat Re.Word; Re.Chr ":"] c = ismacchar c.
Proof.
  unfold ismacchar. simpl. rewrite orb_false_r. apply orb_assoc.
Qed.

End Characters.

(** ** Strings *)

Section Strings.

Lemma str_eqb_eq (a b : str) : str_eqb a b = true <-> a = b.
Proof.
  revert b. induction a as [|x a IH]; intros [|y b]; simpl;
    try (split; [discriminate | discriminate]); try tauto.
  rewrite andb_true_iff, Ascii.eqb_eq, IH.
  split; [intros [-> ->]; reflexivity | intros E; inversion E; auto].
Qed.

Lemma forallb_ext_in (f g : ascii -> bool) (s : str) :
  (forall c, f c = g c) -> forallb f s = forallb g s.
Proof.
  intros E. induction s as [|c s IH]; simpl; [reflexivity|].
  rewrite E, IH. reflexivity.
Qed.

Lemma run_ext (f g : ascii -> bool) (d : str) :
  (forall c, f c = g c) -> run f d -> run g d.
Proof.
  intros E [N F]. split; [exact N|].
  rewrite <- F. symmetry. apply forallb_ext_in. exact E.
Qed.

Lemma run_app (f : ascii -> bool) (a b : str) :
  run f a -> forallb f b = true -> run f (a ++ b).
Proof.
  intros [N F] G. split.
  - destruct a; [contradiction | discriminate].
  - rewrite forallb_app, F, G. reflexivity.
Qed.

Lemma slice_middle (pre mid post : str) :
  PyStr.slice (pre ++ mid ++ post) (length pre) (length pre + length mid)
  = mid.
Proof.
  unfold PyStr.slice.
  replace (length pre + length mid - length pre) with (length mid) by lia.
  rewrite skipn_app, skipn_all, Nat.sub_diag. simpl.
  rewrite firstn_app, firstn_all, Nat.sub_diag. simpl.
  apply app_nil_r.
Qed.

End Strings.

(** ** Greedy repetition *)

Section Repetition.

Import Re.

Lemma span_le_length (f : ascii -> bool) (s : str) : span f s <= length s.
Proof.
  induction s as [|c s IH]; simpl; [lia|]. destruct (f c); simpl; lia.
Qed.

Lemma span_firstn (f : ascii -> bool) (s : str) (j : nat) :
  j <= span f s -> forallb f (firstn j s) = true.
Proof.
  revert j. induction s as [|c s IH]; intros [|j] L; simpl in *;
    try reflexivity.
  destruct (f c) eqn:E; [|lia]. rewrite IH by lia. reflexivity.
Qed.

Lemma span_run (f : ascii -> bool) (d rest : str) :
  forallb f d = true -> span f (d ++ rest) = length d + span f rest.
Proof.
  induction d as [|c d IH]; simpl; [reflexivity|].
  intros F. apply andb_true_iff in F as [-> F]. rewrite IH by exact F.
  reflexivity.
Qed.

Lemma span_head_out (f : ascii -> bool) (c : ascii) (s : str) :
  f c = false -> span f (c :: s) = 0.
Proof. intros E. simpl. rewrite E. reflexivity. Qed.

(** What follows a run of [g] is no character of [f], when the two
    classes are disjoint. *)
Lemma span_after_run (f g : ascii -> bool) (d rest : str) :
  (forall c, g c = true -> f c = false) ->
  run g d -> span f (d ++ rest) = 0.
Proof.
  intros D [N F]. destruct d as [|c d]; [contradiction|].
  simpl in F. apply andb_true_iff in F as [F _].
  simpl. rewrite (D c F). reflexivity.
Qed.

Lemma span_takes_all (f : ascii -> bool) (s : str) :
  forallb f (firstn (span f s) s) = true /\
  span f (skipn (span f s) s) = 0.
Proof.
  induction s as [|c s [IH1 IH2]]; simpl; [auto|].
  destruct (f c) eqn:E; simpl; rewrite ?E; auto.
Qed.

Lemma try_longest_inv {R : Type} (k : nat -> option R) (n : nat) (r : R) :
  try_longest k n = Some r -> exists j, 1 <= j <= n /\ k j = Some r.
Proof.
  induction n as [|n IH]; simpl; [discriminate|].
  destruct (k (S n)) eqn:E.
  - intros [= ->]. exists (S n). split; [lia | exact E].
  - intros H. destruct (IH H) as (j & L & K). exists j. split; [lia | exact K].
Qed.

Lemma try_longest_first {R : Type} (k : nat -> option R) (n : nat) (r : R) :
  n <> 0 -> k n = Some r -> try_longest k n = Some r.
Proof.
  destruct n as [|n]; [contradiction|]. intros _ E. simpl. rewrite E.
  reflexivity.
Qed.

End Repetition.

(** ** The matcher, item by item *)

Section Matcher.

Import Re.

Lemma exec_Mark (i : nat) (p : list item) (s : str) (pos : nat) (mk : marks) :
  exec (Mark i :: p) s pos mk = exec p s pos ((i, pos) :: mk).
Proof. reflexivity. Qed.

Lemma exec_One_hit (a : atom) (p : list item) (c : ascii) (rest : str)
      (pos : nat) (mk : marks) :
  atom_match a c = true ->
  exec (One a :: p) (c :: rest) pos mk = exec p rest (S pos) mk.
Proof. intros E. simpl. rewrite E. reflexivity. Qed.

Lemma exec_One_inv (a : atom) (p : list item) (s : str) (pos : nat)
      (mk : marks) (r : nat * marks) :
  exec (One a :: p) s pos mk = Some r ->
  exists c rest,
    s = c :: rest /\ atom_match a c = true /\ exec p rest (S pos) mk = Some r.
Proof.
  simpl. destruct s as [|c rest]; [discriminate|].
  destruct (atom_match a c) eqn:E; [|discriminate].
  intros H. exists c, rest. auto.
Qed.

Lemma exec_Plus_inv (set : list atom) (p : list item) (s : str) (pos : nat)
      (mk : marks) (r : nat * marks) :
  exec (Plus set :: p) s pos mk = Some r ->
  exists d rest,
    s = d ++ rest /\ run (in_set set) d /\
    exec p rest (pos + length d) mk = Some r.
Proof.
  simpl. intros H. apply try_longest_inv in H as (j & [L1 L2] & K).
  pose proof (span_le_length (in_set set) s) as L3.
  exists (firstn j s), (skipn j s).
  assert (length (firstn j s) = j) as E by (apply firstn_length_le; lia).
  repeat split.
  - symmetry. apply firstn_skipn.
  - intros N. rewrite N in E. simpl in E. lia.
  - apply span_firstn. exact L2.
  - rewrite E. exact K.
Qed.

Lemma exec_Plus_greedy (set : list atom) (p : list item) (d rest : str)
      (pos : nat) (mk : marks) (r : nat * marks) :
  run (in_set set) d ->
  span (in_set set) rest = 0 ->
  exec p rest (pos + length d) mk = Some r ->
  exec (Plus set :: p) (d ++ rest) pos mk = Some r.
Proof.
  intros [N F] Z K. simpl. rewrite (span_run _ _ _ F), Z, Nat.add_0_r.
  apply try_longest_first.
  - destruct d; [contradiction | discriminate].
  - rewrite skipn_app, skipn_all, Nat.sub_diag. simpl. exact K.
Qed.

Lemma exec_Plus_stuck (set : list atom) (p : list item) (s : str)
      (pos : nat) (mk : marks) :
  span (in_set set) s = 0 -> exec (Plus set :: p) s pos mk = None.
Proof. intros Z. simpl. rewrite Z. reflexivity. Qed.

Lemma search_from_inv (p : list item) (subject s : str) (pos : nat)
      (m : match_obj) :
  search_from p subject s pos = Some m ->
  exists pre s',
    s = pre ++ s' /\ m_string m = subject /\
    m_start m = pos + length pre /\
    exec p s' (m_start m) [] = Some (m_end m, m_marks m).
Proof.
  revert pos. induction s as [|c s IH]; intros pos; simpl.
  - destruct (exec p [] pos []) as [[e mk]|] eqn:E; [|discriminate].
    intros [= <-]. exists [], []. simpl. rewrite Nat.add_0_r. auto.
  - destruct (exec p (c :: s) pos []) as [[e mk]|] eqn:E.
    + intros [= <-]. exists [], (c :: s). simpl. rewrite Nat.add_0_r. auto.
    + intros H. destruct (IH _ H) as (pre & s' & -> & S1 & S2 & S3).
      exists (c :: pre), s'. simpl. rewrite S2 in *.
      repeat split; auto; lia.
Qed.

Lemma search_from_here (p : list item) (subject s : str) (pos e : nat)
      (mk : marks) :
  exec p s pos [] = Some (e, mk) ->
  search_from p subject s pos
  = Some {| m_string := subject; m_start := pos; m_end := e;
            m_marks := mk |}.
Proof. intros H. destruct s; simpl; rewrite H; reflexivity. Qed.

(** A match somewhere makes the search succeed, there or before. *)
Lemma search_from_finds (p : list item) (subject pre s' : str) (pos : nat)
      (r : nat * marks) :
  exec p s' (pos + length pre) [] = Some r ->
  exists m, search_from p subject (pre ++ s') pos = Some m.
Proof.
  revert pos. induction pre as [|c pre IH]; intros pos H; simpl in *.
  - rewrite Nat.add_0_r in H.
    destruct s' as [|c s']; simpl; rewrite H; destruct r; eauto.
  - destruct (exec p (c :: pre ++ s') pos []) as [[e mk]|]; [eauto|].
    apply IH. rewrite <- H. f_equal. lia.
Qed.

(** Positions at which the pattern cannot match are passed over. *)
Lemma search_from_skips (p : list item) (subject pre s' : str) (pos : nat) :
  (forall a b n, pre = a ++ b -> b <> [] -> exec p (b ++ s') n [] = None) ->
  search_from p subject (pre ++ s') pos
  = search_from p subject s' (pos + length pre).
Proof.
  revert pos. induction pre as [|c pre IH]; intros pos H; simpl.
  - rewrite Nat.add_0_r. reflexivity.
  - assert (exec p (c :: pre ++ s') pos [] = None) as E
      by (apply (H [] (c :: pre) pos); [reflexivity | discriminate]).
    rewrite E, IH.
    + f_equal. lia.
    + intros a b n -> N. apply (H (c :: a) b n); auto.
Qed.

End Matcher.

(** ** The pattern of the script *)

Section ArpPattern.

Import Re.

Lemma arp_pattern_items :
  arp_pattern =
  [ Mark 0;
    Plus [Cat Digit]; One (Chr "."); Plus [Cat Digit]; One (Chr ".");
    Plus [Cat Digit]; One (Chr "."); Plus [Cat Digit];
    Mark 1; Plus [Cat Space];
    Mark 2; Plus [Chr "-"; Cat Word; Chr ":"]; Mark 3 ].
Proof. reflexivity. Qed.

Lemma span_ext (f g : ascii -> bool) (s : str) :
  (forall c, f c = g c) -> span f s = span g s.
Proof.
  intros E. induction s as [|c s IH]; simpl; [reflexivity|].
  rewrite E, IH. reflexivity.
Qed.

Lemma run_digit_set (d : str) :
  run (in_set [Cat Digit]) d <-> run Uni.isdecimal d.
Proof.
  split; apply run_ext; intros c; [|symmetry]; apply in_set_digit.
Qed.

Lemma run_space_set (d : str) :
  run (in_set [Cat Space]) d <-> run Uni.isspace d.
Proof.
  split; apply run_ext; intros c; [|symmetry]; apply in_set_space.
Qed.

Lemma run_mac_set (d : str) :
  run (in_set [Chr "-"; Cat Word; Chr ":"]) d <-> run ismacchar d.
Proof.
  split; apply run_ext; intros c; [|symmetry]; apply in_set_mac.
Qed.

Lemma dot_literal (c : ascii) : atom_match (Chr ".") c = true -> c = "."%char.
Proof. simpl. apply Ascii.eqb_eq. Qed.

(** Every match of the pattern reads a dotted quad, whitespace and a
    token, and leaves the four marks of its two groups. *)
Lemma exec_arp_inv (s : str) (pos e : nat) (mk : marks) :
  exec arp_pattern s pos [] = Some (e, mk) ->
  exists ip ws tok post,
    s = ip ++ ws ++ tok ++ post /\
    dotted_quad ip /\ run Uni.isspace ws /\ run ismacchar tok /\
    e = pos + length ip + length ws + length tok /\
    mk = [ (3, e); (2, pos + length ip + length ws);
           (1, pos + length ip); (0, pos) ].
Proof.
  rewrite arp_pattern_items, exec_Mark. intros H.
  apply exec_Plus_inv in H as (d1 & t1 & -> & R1 & H).
  apply exec_One_inv in H as (c1 & u1 & -> & C & H).
  apply dot_literal in C as ->.
  apply exec_Plus_inv in H as (d2 & t2 & -> & R2 & H).
  apply exec_One_inv in H as (c2 & u2 & -> & C & H).
  apply dot_literal in C as ->.
  apply exec_Plus_inv in H as (d3 & t3 & -> & R3 & H).
  apply exec_One_inv in H as (c3 & u3 & -> & C & H).
  apply dot_literal in C as ->.
  apply exec_Plus_inv in H as (d4 & t4 & -> & R4 & H).
  rewrite exec_Mark in H.
  apply exec_Plus_inv in H as (ws & t5 & -> & RW & H).
  rewrite exec_Mark in H.
  apply exec_Plus_inv in H as (tok & post & -> & RT & H).
  rewrite exec_Mark in H. simpl in H. injection H as <- <-.
  apply run_digit_set in R1, R2, R3, R4.
  apply run_space_set in RW. apply run_mac_set in RT.
  exists (d1 ++ "."%char :: d2 ++ "."%char :: d3 ++ "."%char :: d4),
    ws, tok, post.
  split; [|split; [|split; [|split; [|split]]]]; auto.
  - repeat (rewrite <- app_assoc; simpl). reflexivity.
  - exists d1, d2, d3, d4. auto.
  - lengths.
  - repeat f_equal; lengths.
Qed.

Lemma four_marks (a a' b b' c c' pos : nat) :
  a = a' -> b = b' -> c = c' ->
  Some (a, [(3, a); (2, b); (1, c); (0, pos)])
  = Some (a', [(3, a'); (2, b'); (1, c'); (0, pos)]).
Proof. intros -> -> ->. reflexivity. Qed.

(** On a dotted quad, whitespace and a token that ends where the
    characters of the set end, the match is the greedy one. *)
Lemma exec_arp_run (ip ws tok post : str) (pos : nat) :
  dotted_quad ip -> run Uni.isspace ws -> run ismacchar tok ->
  span ismacchar post = 0 ->
  exec arp_pattern (ip ++ ws ++ tok ++ post) pos []
  = Some (pos + length ip + length ws + length tok,
          [ (3, pos + length ip + length ws + length tok);
            (2, pos + length ip + length ws);
            (1, pos + length ip); (0, pos) ]).
Proof.
  intros (d1 & d2 & d3 & d4 & R1 & R2 & R3 & R4 & ->) RW RT Z.
  apply run_digit_set in R1, R2, R3, R4.
  apply run_space_set in RW. apply run_mac_set in RT.
  assert (forall s, span (in_set [Cat Digit]) ("."%char :: s) = 0) as Dot
    by (intros s; apply span_head_out; reflexivity).
  rewrite arp_pattern_items, exec_Mark.
  repeat (rewrite <- app_assoc; cbn [app]).
  apply exec_Plus_greedy; [exact R1 | apply Dot |].
  rewrite exec_One_hit by reflexivity.
  apply exec_Plus_greedy; [exact R2 | apply Dot |].
  rewrite exec_One_hit by reflexivity.
  apply exec_Plus_greedy; [exact R3 | apply Dot |].
  rewrite exec_One_hit by reflexivity.
  apply exec_Plus_greedy; [exact R4 | |].
  { apply span_after_run with (g := Uni.isspace).
    - intros c S. rewrite in_set_digit. apply space_not_decimal, S.
    - apply run_space_set, RW. }
  rewrite exec_Mark.
  apply exec_Plus_greedy; [exact RW | |].
  { apply span_after_run with (g := ismacchar).
    - intros c S. rewrite in_set_space. apply macchar_not_space, S.
    - apply run_mac_set, RT. }
  rewrite exec_Mark.
  apply exec_Plus_greedy; [exact RT | |].
  { rewrite <- Z. apply span_ext, in_set_mac. }
  rewrite exec_Mark. simpl exec.
  apply four_marks; lengths.
Qed.

(** Where the text does not start with a digit, the pattern fails. *)
Lemma exec_arp_stuck (s : str) (pos : nat) :
  span Uni.isdecimal s = 0 -> exec arp_pattern s pos [] = None.
Proof.
  intros Z. rewrite arp_pattern_items, exec_Mark.
  apply exec_Plus_stuck. rewrite <- Z. apply span_ext, in_set_digit.
Qed.

Lemma slice_at (line a mid post : str) (n k : nat) :
  line = a ++ mid ++ post -> n = length a -> k = n + length mid ->
  PyStr.slice line n k = mid.
Proof. intros -> -> ->. apply slice_middle. Qed.

Lemma groups_of_marks (m : match_obj) (p0 p1 p2 p3 : nat) :
  m_marks m = [(3, p3); (2, p2); (1, p1); (0, p0)] ->
  groups arp_pattern m
  = [ Some (PyStr.slice (m_string m) p0 p1);
      Some (PyStr.slice (m_string m) p2 p3) ].
Proof.
  intros E. unfold groups, group. rewrite E. reflexivity.
Qed.

(** A match of a line: what it read and what its groups are. *)
Lemma search_arp_sound (line : str) (m : match_obj) :
  search arp_pattern line = Some m ->
  exists pre ip ws tok post,
    line = pre ++ ip ++ ws ++ tok ++ post /\
    dotted_quad ip /\ run Uni.isspace ws /\ run ismacchar tok /\
    groups arp_pattern m = [Some ip; Some tok].
Proof.
  intros H. apply search_from_inv in H as (pre & s' & E & S1 & S2 & H).
  apply exec_arp_inv in H as (ip & ws & tok & post & -> & Q & W & T & E1 & E2).
  exists pre, ip, ws, tok, post.
  split; [exact E|]. split; [exact Q|]. split; [exact W|].
  split; [exact T|].
  rewrite (groups_of_marks _ _ _ _ _ E2), S1, S2. simpl.
  f_equal; [|f_equal]; f_equal.
  - apply slice_at with (a := pre) (post := ws ++ tok ++ post);
      [rewrite E, <- ?app_assoc; reflexivity | reflexivity | lia].
  - rewrite E1.
    apply slice_at with (a := pre ++ ip ++ ws) (post := post);
      [rewrite E, <- ?app_assoc; reflexivity | lengths | rewrite S2; lengths].
Qed.

Lemma search_arp_complete (line : str) :
  has_ip_then_token line -> exists m, search arp_pattern line = Some m.
Proof.
  intros (pre & ip & ws & tok & post & -> & Q & W & T).
  destruct (span_takes_all ismacchar post) as [F Z].
  rewrite <- (firstn_skipn (span ismacchar post) post).
  set (more := firstn (span ismacchar post) post) in *.
  set (post' := skipn (span ismacchar post) post) in *.
  replace (tok ++ more ++ post') with ((tok ++ more) ++ post')
    by (symmetry; apply app_assoc).
  unfold search. eapply search_from_finds.
  apply exec_arp_run; auto. apply run_app; auto.
Qed.

End ArpPattern.

(** * Facts about the script *)

(** ** Normalization *)

Section Normalization.

Lemma normalize_map (s : str) : normalize s = map normalize_char s.
Proof.
  unfold normalize, PyStr.replace, PyStr.lower. rewrite map_map.
  reflexivity.
Qed.

Lemma normalize_char_idem (c : ascii) :
  normalize_char (normalize_char c) = normalize_char c.
Proof. each_char c. Qed.

Lemma normalize_idem (s : str) : normalize (normalize s) = normalize s.
Proof.
  rewrite !normalize_map, map_map. apply map_ext.
  intros c. apply normalize_char_idem.
Qed.

Lemma normalize_char_lowerhex (c : ascii) :
  islowerhex c = true -> normalize_char c = c.
Proof.
  intros H. destruct (lowerhex_fixed c H) as [L D].
  unfold normalize_char. rewrite L, D. reflexivity.
Qed.

Lemma normalize_colon_groups (n : nat) (s : str) :
  colon_groups n s = true -> normalize s = s.
Proof.
  rewrite normalize_map. revert s.
  induction n as [|n IH]; intros s; [destruct s; discriminate|].
  destruct s as [|a [|b rest]]; try discriminate. simpl.
  intros H. apply andb_true_iff in H as [H R].
  apply andb_true_iff in H as [A B].
  rewrite (normalize_char_lowerhex a A), (normalize_char_lowerhex b B).
  destruct rest as [|c rest]; [reflexivity|].
  apply andb_true_iff in R as [C R]. apply Ascii.eqb_eq in C as ->.
  simpl. rewrite (IH rest R). reflexivity.
Qed.

End Normalization.

(** ** Lines *)

Section Lines.

Import Re.

Lemma parse_line_search (line : str) (m : match_obj) :
  search arp_pattern line = Some m ->
  exists ip mac,
    groups arp_pattern m = [Some ip; Some mac] /\
    parse_line line = Some (ip, mac).
Proof.
  intros H.
  destruct (search_arp_sound line m H)
    as (pre & ip & ws & tok & post & _ & _ & _ & _ & G).
  exists ip, tok. split; [exact G|].
  unfold parse_line. rewrite H, G. reflexivity.
Qed.

Lemma parse_line_none (line : str) :
  search arp_pattern line = None -> parse_line line = None.
Proof. intros H. unfold parse_line. rewrite H. reflexivity. Qed.

Lemma parse_line_some (line ip mac : str) :
  parse_line line = Some (ip, mac) ->
  exists pre ws post,
    line = pre ++ ip ++ ws ++ mac ++ post /\
    dotted_quad ip /\ run Uni.isspace ws /\ run ismacchar mac.
Proof.
  unfold parse_line.
  destruct (search arp_pattern line) as [m|] eqn:H; [|discriminate].
  destruct (search_arp_sound line m H)
    as (pre & ip' & ws & tok & post & E & Q & W & T & G).
  rewrite G. intros [= <- <-]. exists pre, ws, post. auto.
Qed.

Lemma parsed_lines_in (lines : list str) (p : str * str) :
  In p (parsed_lines lines) ->
  exists line, In line lines /\ parse_line line = Some p.
Proof.
  unfold parsed_lines. rewrite in_flat_map. intros (line & I & P).
  exists line. split; [exact I|].
  destruct (parse_line line) as [q|]; simpl in P; [|contradiction].
  destruct P as [-> | []]. reflexivity.
Qed.

(** The loop of [list_arp_table] appends the pairs of the lines. *)
Lemma list_arp_loop_eq (lines : list str) (devices : list device) :
  list_arp_loop devices lines
  = Ok (devices ++ map device_of (parsed_lines lines)).
Proof.
  revert devices. induction lines as [|line rest IH]; intros devices.
  - simpl. rewrite app_nil_r. reflexivity.
  - cbn [list_arp_loop parsed_lines flat_map].
    destruct (search arp_pattern line) as [m|] eqn:H.
    + destruct (parse_line_search line m H) as (ip & mac & G & P).
      rewrite G, P. cbn [unpack2 bind lower_of]. rewrite IH.
      rewrite <- app_assoc. reflexivity.
    + rewrite (parse_line_none line H). apply IH.
Qed.

(** The loop of [get_ip_from_mac] looks the target up in those pairs. *)
Lemma get_ip_loop_eq (target : str) (lines : list str) :
  get_ip_loop target lines
  = Ok (lookup_device target (map device_of (parsed_lines lines))).
Proof.
  induction lines as [|line rest IH]; [reflexivity|].
  cbn [get_ip_loop parsed_lines flat_map].
  destruct (search arp_pattern line) as [m|] eqn:H.
  - destruct (parse_line_search line m H) as (ip & mac & G & P).
    rewrite G, P. cbn [unpack2 bind lower_of app map lookup_device device_of
                       fst snd].
    fold (normalize mac).
    destruct (str_eqb (normalize mac) target); [reflexivity | exact IH].
  - rewrite (parse_line_none line H). exact IH.
Qed.

Lemma lookup_device_found (target : str) (devices : list device) (ip : str) :
  lookup_device target devices = Some ip ->
  In (Some ip, target) devices.
Proof.
  induction devices as [|[oip mac] rest IH]; simpl; [discriminate|].
  destruct (str_eqb mac target) eqn:E.
  - apply str_eqb_eq in E as ->. intros ->. left. reflexivity.
  - intros H. right. apply IH, H.
Qed.

End Lines.

(** ** Lines of the output *)

Section SplitLines.

Lemma splitlines_from_no_break (cur s : str) :
  forallb (fun c => negb (Uni.islinebreak c)) s = true ->
  PyStr.splitlines_from cur s
  = match rev cur ++ s with [] => [] | line => [line] end.
Proof.
  revert cur. induction s as [|c s IH]; intros cur; simpl.
  - intros _. rewrite app_nil_r.
    destruct cur as [|x cur]; [reflexivity|]. simpl.
    destruct (rev cur ++ [x]) eqn:E; [|reflexivity].
    destruct (rev cur); discriminate.
  - intros H. apply andb_true_iff in H as [B H].
    apply negb_true_iff in B. rewrite B, (IH _ H). simpl.
    rewrite <- app_assoc. reflexivity.
Qed.

(** A text without line boundaries is a single line. *)
Lemma splitlines_one_line (s : str) :
  s <> [] ->
  forallb (fun c => negb (Uni.islinebreak c)) s = true ->
  PyStr.splitlines s = [s].
Proof.
  intros N H. unfold PyStr.splitlines.
  rewrite (splitlines_from_no_break _ _ H). simpl.
  destruct s; [contradiction | reflexivity].
Qed.

Lemma decimal_not_linebreak (c : ascii) :
  Uni.isdecimal c = true -> Uni.islinebreak c = false.
Proof. each_char c. Qed.

Lemma macchar_not_linebreak (c : ascii) :
  ismacchar c = true -> Uni.islinebreak c = false.
Proof. each_char c. Qed.

Lemma forallb_impl (f g : ascii -> bool) (s : str) :
  (forall c, f c = true -> g c = true) ->
  forallb f s = true -> forallb g s = true.
Proof.
  intros I. induction s as [|c s IH]; simpl; [reflexivity|].
  intros H. apply andb_true_iff in H as [F H].
  rewrite (I c F), (IH H). reflexivity.
Qed.

Lemma dotted_quad_no_break (ip : str) :
  dotted_quad ip -> forallb (fun c => negb (Uni.islinebreak c)) ip = true.
Proof.
  assert (forall d, run Uni.isdecimal d ->
                    forallb (fun c => negb (Uni.islinebreak c)) d = true) as D.
  { intros d [_ F]. revert F. apply forallb_impl.
    intros c H. rewrite (decimal_not_linebreak c H). reflexivity. }
  intros (d1 & d2 & d3 & d4 & R1 & R2 & R3 & R4 & ->).
  repeat (rewrite forallb_app || cbn [forallb]).
  rewrite !D by assumption. reflexivity.
Qed.

Lemma dotted_quad_not_nil (ip : str) : dotted_quad ip -> ip <> [].
Proof.
  intros (d1 & d2 & d3 & d4 & [N _] & _ & _ & _ & ->).
  destruct d1; [contradiction | discriminate].
Qed.

End SplitLines.

(** ** Well-formed lines *)

Section WellFormed.

Import Re.

(** A dotted quad, whitespace and a token, after a lead without digits
    and before a trail that does not continue the token: the groups of
    the match are the quad and the token. *)
Lemma parse_wellformed (lead ip ws tok trail : str) :
  forallb (fun c => negb (Uni.isdecimal c)) lead = true ->
  dotted_quad ip -> run Uni.isspace ws -> run ismacchar tok ->
  span ismacchar trail = 0 ->
  parse_line (lead ++ ip ++ ws ++ tok ++ trail) = Some (ip, tok).
Proof.
  intros L Q W T Z.
  set (line := lead ++ ip ++ ws ++ tok ++ trail).
  assert (search arp_pattern line
          = Some {| m_string := line; m_start := length lead;
                    m_end := length lead + length ip + length ws + length tok;
                    m_marks :=
                      [ (3, length lead + length ip + length ws + length tok);
                        (2, length lead + length ip + length ws);
                        (1, length lead + length ip); (0, length lead) ] |})
    as S.
  { unfold search, line. rewrite search_from_skips.
    - apply search_from_here, exec_arp_run; assumption.
    - intros a b n -> N. apply exec_arp_stuck.
      rewrite forallb_app in L. apply andb_true_iff in L as [_ L].
      destruct b as [|c b]; [contradiction|]. simpl in *.
      apply andb_true_iff in L as [C _]. apply negb_true_iff in C.
      rewrite C. reflexivity. }
  unfold parse_line. rewrite S.
  erewrite groups_of_marks by (cbn [m_marks]; reflexivity). cbn [m_string].
  rewrite (slice_at line lead ip (ws ++ tok ++ trail) _ _ eq_refl eq_refl
             eq_refl).
  rewrite (slice_at line (lead ++ ip ++ ws) tok trail).
  - reflexivity.
  - unfold line. rewrite <- !app_assoc. reflexivity.
  - lengths.
  - lengths.
Qed.

End WellFormed.

(** ** Spellings *)

Section Spellings.

Lemma hex_digit_cases (P : ascii -> Prop) (u : bool) (v : nat) :
  (forall c, In c (text "0123456789ABCDEFabcdef") -> P c) ->
  P (hex_digit u v).
Proof.
  intros H. unfold hex_digit.
  pose proof (Nat.mod_upper_bound v 16 ltac:(discriminate)) as B.
  revert B. generalize (v mod 16). intros n B.
  destruct u;
    do 16 (destruct n as [|n]; [apply H; simpl; tauto|]); lia.
Qed.

Lemma hex_digit_macchar (u : bool) (v : nat) : ismacchar (hex_digit u v) = true.
Proof.
  apply hex_digit_cases. intros c I. simpl in I.
  repeat (destruct I as [<- | I]; [reflexivity|]). contradiction.
Qed.

Lemma hex_digit_lower (v : nat) : islowerhex (hex_digit false v) = true.
Proof.
  unfold hex_digit.
  pose proof (Nat.mod_upper_bound v 16 ltac:(discriminate)) as B.
  revert B. generalize (v mod 16). intros n B.
  do 16 (destruct n as [|n]; [reflexivity|]). lia.
Qed.

Lemma hex_digit_normalize (u : bool) (v : nat) :
  normalize_char (hex_digit u v) = hex_digit false v.
Proof.
  unfold hex_digit.
  pose proof (Nat.mod_upper_bound v 16 ltac:(discriminate)) as B.
  revert B. generalize (v mod 16). intros n B.
  destruct u; do 16 (destruct n as [|n]; [reflexivity|]); lia.
Qed.

Lemma separator_macchar (sp : spelling) (i : nat) :
  ismacchar (separator sp i) = true.
Proof. unfold separator. destruct (dash sp i); reflexivity. Qed.

Lemma separator_normalize (sp : spelling) (i : nat) :
  normalize_char (separator sp i) = ":"%char.
Proof. unfold separator. destruct (dash sp i); reflexivity. Qed.

Lemma spell_from_macchars (sp : spelling) (m : N) (i n : nat) :
  forallb ismacchar (spell_from sp m i n) = true.
Proof.
  revert i. induction n as [|n IH]; intros i; simpl;
    rewrite !hex_digit_macchar; [reflexivity|].
  rewrite separator_macchar, IH. reflexivity.
Qed.

Lemma spell_run (sp : spelling) (m : N) : run ismacchar (spell sp m).
Proof. split; [discriminate | apply spell_from_macchars]. Qed.

Lemma spell_from_normalize (sp : spelling) (m : N) (i n : nat) :
  normalize (spell_from sp m i n) = spell_from canonical_spelling m i n.
Proof.
  rewrite normalize_map. revert i.
  induction n as [|n IH]; intros i; simpl;
    rewrite !hex_digit_normalize; [reflexivity|].
  rewrite separator_normalize, IH. reflexivity.
Qed.

(** Every spelling normalizes to the lowercase, colon-separated one. *)
Lemma spell_normalize (sp : spelling) (m : N) :
  normalize (spell sp m) = spell canonical_spelling m.
Proof. apply spell_from_normalize. Qed.

Lemma colon_groups_step (n : nat) (a b c : ascii) (rest : str) :
  colon_groups (S n) (a :: b :: c :: rest)
  = islowerhex a && islowerhex b && (Ascii.eqb c ":" && colon_groups n rest).
Proof. reflexivity. Qed.

Lemma canonical_digit_lower (m : N) (k : nat) :
  islowerhex (hex_digit (upper canonical_spelling k) (nibble m k)) = true.
Proof. apply hex_digit_lower. Qed.

Lemma spell_from_canonical (m : N) (i n : nat) :
  colon_groups (S n) (spell_from canonical_spelling m i n) = true.
Proof.
  revert i. induction n as [|n IH]; intros i.
  - simpl. rewrite !hex_digit_lower. reflexivity.
  - cbn [spell_from spell_octet app].
    rewrite colon_groups_step, !canonical_digit_lower, IH. reflexivity.
Qed.

Lemma spell_canonical (m : N) :
  is_canonical_mac (spell canonical_spelling m) = true.
Proof. apply spell_from_canonical. Qed.

End Spellings.

(** ** The two functions, through the parsed pairs *)

Section Functions.

Lemma list_arp_table_eq (arp_output : str) :
  list_arp_table arp_output
  = Ok (map device_of (parsed_pairs arp_output)).
Proof. unfold list_arp_table. rewrite list_arp_loop_eq. reflexivity. Qed.

Lemma get_ip_from_mac_eq (arp_output target_mac : str) :
  get_ip_from_mac arp_output target_mac
  = Ok (lookup_device (normalize target_mac)
                      (map device_of (parsed_pairs arp_output))).
Proof. unfold get_ip_from_mac. rewrite get_ip_loop_eq. reflexivity. Qed.

Lemma parsed_lines_filter (lines : list str) :
  parsed_lines (filter line_matches lines) = parsed_lines lines.
Proof.
  induction lines as [|line rest IH]; [reflexivity|].
  cbn [filter]. unfold line_matches at 1.
  destruct (Re.search arp_pattern line) as [m|] eqn:H.
  - cbn [parsed_lines flat_map]. fold (parsed_lines (filter line_matches rest)).
    fold (parsed_lines rest). rewrite IH. reflexivity.
  - cbn [parsed_lines flat_map]. fold (parsed_lines rest).
    rewrite (parse_line_none line H). exact IH.
Qed.

Lemma parsed_lines_pairs (lines : list str) :
  Forall2 pair_of_line (filter line_matches lines)
          (map device_of (parsed_lines lines)).
Proof.
  induction lines as [|line rest IH]; [constructor|].
  cbn [filter parsed_lines flat_map]. fold (parsed_lines rest).
  unfold line_matches at 1.
  destruct (Re.search arp_pattern line) as [m|] eqn:H.
  - destruct (parse_line_search line m H) as (ip & mac & G & P).
    rewrite P. cbn [app map]. constructor; [|exact IH].
    exists m, ip, mac. auto.
  - rewrite (parse_line_none line H). exact IH.
Qed.

Lemma parsed_lines_groups (lines : list str) :
  Forall2 groups_of_line (filter line_matches lines) (parsed_lines lines).
Proof.
  induction lines as [|line rest IH]; [constructor|].
  cbn [filter parsed_lines flat_map]. fold (parsed_lines rest).
  unfold line_matches at 1.
  destruct (Re.search arp_pattern line) as [m|] eqn:H.
  - destruct (parse_line_search line m H) as (ip & mac & G & P).
    rewrite P. cbn [app]. constructor; [|exact IH].
    exists m. auto.
  - rewrite (parse_line_none line H). exact IH.
Qed.

Lemma lookup_device_first (target : str) (pairs : list (str * str)) :
  (exists before ip mac after,
      pairs = before ++ (ip, mac) :: after /\
      normalize mac = target /\
      (forall p, In p before -> normalize (snd p) <> target) /\
      lookup_device target (map device_of pairs) = Some ip)
  \/
  ((forall p, In p pairs -> normalize (snd p) <> target) /\
   lookup_device target (map device_of pairs) = None).
Proof.
  induction pairs as [|[ip mac] rest IH].
  - right. split; [intros p [] | reflexivity].
  - cbn [map device_of lookup_device fst snd].
    destruct (str_eqb (normalize mac) target) eqn:E.
    + left. exists [], ip, mac, rest. apply str_eqb_eq in E.
      split; [reflexivity|]. split; [exact E|].
      split; [intros p []|reflexivity].
    + assert (normalize mac <> target) as N.
      { intros C. apply str_eqb_eq in C. congruence. }
      destruct IH as [(before & ip' & mac' & after & -> & M & B & L) | [A L]].
      * left. exists ((ip, mac) :: before), ip', mac', after.
        split; [reflexivity|]. split; [exact M|]. split; [|exact L].
        intros p [<- | I]; [exact N | apply B, I].
      * right. split; [|exact L].
        intros p [<- | I]; [exact N | apply A, I].
Qed.

End Functions.

(** * The properties *)

(** C1.  [get_ip_from_mac] returns the IP of the first parsed (IP, MAC)
    pair whose normalized MAC equals the normalized query.  The parsed
    pairs are the groups of the matches of the lines that match, in the
    order of the lines; either they split into pairs that do not match
    the query, a pair that does and whose IP is returned, and the rest;
    or none of them matches the query and [None] is returned. *)
Theorem get_ip_from_mac_first_match (arp_output target_mac : str) :
  Forall2 groups_of_line
          (filter line_matches (PyStr.splitlines arp_output))
          (parsed_pairs arp_output)
  /\
  ((exists before ip mac after,
       parsed_pairs arp_output = before ++ (ip, mac) :: after /\
       normalize mac = normalize target_mac /\
       (forall p, In p before -> normalize (snd p) <> normalize target_mac) /\
       get_ip_from_mac arp_output target_mac = Ok (Some ip))
   \/
   ((forall p, In p (parsed_pairs arp_output) ->
               normalize (snd p) <> normalize target_mac) /\
    get_ip_from_mac arp_output target_mac = Ok None)).
Proof.
  split; [apply parsed_lines_groups|].
  rewrite get_ip_from_mac_eq.
  destruct (lookup_device_first (normalize target_mac)
                                (parsed_pairs arp_output))
    as [(before & ip & mac & after & E & M & B & L) | [A L]]; rewrite L.
  - left. exists before, ip, mac, after. auto.
  - right. auto.
Qed.

(** C5.  On an empty output [list_arp_table] returns the empty list and
    [get_ip_from_mac] returns [None] for every query; neither raises. *)
Theorem empty_output_no_pairs :
  list_arp_table [] = Ok [] /\
  forall target_mac, get_ip_from_mac [] target_mac = Ok None.
Proof. split; [reflexivity | intros target_mac; reflexivity]. Qed.

(** C6.  [list_arp_table] returns one pair for each line that matches the
    pattern, in the order of the lines, and nothing else: its result is in
    one-to-one, order-preserving correspondence with the matching lines,
    each pair being the pair of its line. *)
Theorem list_arp_table_one_pair_per_matching_line (arp_output : str) :
  exists devices,
    list_arp_table arp_output = Ok devices /\
    Forall2 pair_of_line
            (filter line_matches (PyStr.splitlines arp_output)) devices.
Proof.
  exists (map device_of (parsed_pairs arp_output)).
  split; [apply list_arp_table_eq | apply parsed_lines_pairs].
Qed.

(** On a text, whatever it is, neither function raises: both return a
    value, the same as on the matching lines alone, and when no line
    matches these values are the empty list and [None]. *)
Lemma unmatched_lines_skipped (arp_output target_mac : str) :
  let matching := filter line_matches (PyStr.splitlines arp_output) in
  (exists devices,
      list_arp_table arp_output = Ok devices /\
      list_arp_loop [] matching = Ok devices) /\
  (exists found,
      get_ip_from_mac arp_output target_mac = Ok found /\
      get_ip_loop (normalize target_mac) matching = Ok found) /\
  (matching = [] ->
   list_arp_table arp_output = Ok [] /\
   get_ip_from_mac arp_output target_mac = Ok None).
Proof.
  intros matching. unfold matching.
  split; [|split].
  - eexists. split; [apply list_arp_table_eq|].
    rewrite list_arp_loop_eq, parsed_lines_filter. reflexivity.
  - eexists. split; [apply get_ip_from_mac_eq|].
    rewrite get_ip_loop_eq, parsed_lines_filter. reflexivity.
  - intros E. rewrite list_arp_table_eq, get_ip_from_mac_eq.
    unfold parsed_pairs.
    rewrite <- parsed_lines_filter, E. split; reflexivity.
Qed.

(** C7 fails as stated: an output that the codec of the locale does not
    decode, here the byte [ff] under [ascii], makes the read of both
    functions raise [UnicodeDecodeError], which they do not catch. *)
Lemma undecodable_output_raises :
  ~ (forall (decode : codec) (raw : list Byte.byte) (target_mac : str),
        (exists devices, list_arp_table_call decode raw = Ok devices) /\
        (exists found,
            get_ip_from_mac_call decode raw target_mac = Ok found)).
Proof.
  intros H.
  destruct (H ascii_codec [Byte.xff] (text "00:11:22:33:44:55"))
    as [[devices E] _].
  discriminate E.
Qed.

(** C7, amended.  On every output that decodes to text, whatever the
    text, neither function raises: both return a value, the same as on
    the matching lines alone, and when no line matches these values are
    the empty list and [None].  On an output that does not decode, both
    raise the [UnicodeDecodeError] of the read. *)
Theorem decoded_output_never_raises (decode : codec) (raw : list Byte.byte)
        (target_mac : str) :
  (forall arp_output,
      decode raw = Some arp_output ->
      let matching := filter line_matches (PyStr.splitlines arp_output) in
      (exists devices,
          list_arp_table_call decode raw = Ok devices /\
          list_arp_loop [] matching = Ok devices) /\
      (exists found,
          get_ip_from_mac_call decode raw target_mac = Ok found /\
          get_ip_loop (normalize target_mac) matching = Ok found) /\
      (matching = [] ->
       list_arp_table_call decode raw = Ok [] /\
       get_ip_from_mac_call decode raw target_mac = Ok None))
  /\
  (decode raw = None ->
   list_arp_table_call decode raw = Raise UnicodeDecodeError /\
   get_ip_from_mac_call decode raw target_mac = Raise UnicodeDecodeError).
Proof.
  unfold list_arp_table_call, get_ip_from_mac_call, popen_read.
  split.
  - intros arp_output E. rewrite E. cbn [bind].
    apply unmatched_lines_skipped.
  - intros E. rewrite E. split; reflexivity.
Qed.

Lemma decoded_output_never_raises_witness :
  let raw :=
    octets "ARP cache" ++ [Byte.x0d; Byte.x0a] ++ octets "no entries" in
  ascii_codec raw = Some (text "ARP cache" ++ [LF] ++ text "no entries") /\
  list_arp_table_call ascii_codec raw = Ok [] /\
  get_ip_from_mac_call ascii_codec raw (text "00:11:22:33:44:55") = Ok None.
Proof.
  split; [reflexivity|].
  apply (proj1 (decoded_output_never_raises
                  ascii_codec
                  (octets "ARP cache" ++ [Byte.x0d; Byte.x0a]
                   ++ octets "no entries")
                  (text "00:11:22:33:44:55"))
               (text "ARP cache" ++ [LF] ++ text "no entries")).
  - reflexivity.
  - reflexivity.
Defined.

(** C8.  Normalizing a MAC that is already in the canonical form
    [xx:xx:xx:xx:xx:xx] leaves it unchanged. *)
Theorem normalize_canonical_unchanged (mac : str) :
  is_canonical_mac mac = true -> normalize mac = mac.
Proof. apply normalize_colon_groups. Qed.

Lemma normalize_canonical_unchanged_witness :
  is_canonical_mac (text "00:11:22:33:44:55") = true /\
  normalize (text "00:11:22:33:44:55") = text "00:11:22:33:44:55".
Proof.
  split; [reflexivity|].
  apply (normalize_canonical_unchanged (text "00:11:22:33:44:55")).
  reflexivity.
Defined.

(** C9.  [get_ip_from_mac] is a lookup in the result of [list_arp_table]
    on the same output: the IP of the first listed pair whose mac equals
    the normalized target, [None] when there is none. *)
Theorem get_ip_from_mac_is_lookup (arp_output target_mac : str) :
  exists devices,
    list_arp_table arp_output = Ok devices /\
    get_ip_from_mac arp_output target_mac
    = Ok (lookup_device (normalize target_mac) devices).
Proof.
  exists (map device_of (parsed_pairs arp_output)).
  split; [apply list_arp_table_eq | apply get_ip_from_mac_eq].
Qed.

(** ** What a listed pair is made of *)

Section ListedPairs.

Lemma listed_pair_origin (arp_output : str) (oip : option str) (mac : str) :
  In (oip, mac) (map device_of (parsed_pairs arp_output)) ->
  exists ip tok,
    oip = Some ip /\ mac = normalize tok /\
    dotted_quad ip /\ run ismacchar tok.
Proof.
  rewrite in_map_iff. intros ([ip tok] & E & I).
  injection E as <- <-.
  apply parsed_lines_in in I as (line & _ & P).
  apply parse_line_some in P as (pre & ws & post & _ & Q & _ & T).
  exists ip, tok. auto.
Qed.

Lemma normalize_char_plain (c : ascii) :
  normalize_char c <> "-"%char /\ isasciiupper (normalize_char c) = false.
Proof. each_char c; split; try discriminate; reflexivity. Qed.

Lemma normalize_plain (s : str) :
  Forall (fun c => c <> "-"%char /\ isasciiupper c = false) (normalize s).
Proof.
  rewrite normalize_map. induction s as [|c s IH]; simpl; constructor.
  - apply normalize_char_plain.
  - exact IH.
Qed.

Lemma normalize_not_nil (tok : str) : tok <> [] -> normalize tok <> [].
Proof.
  rewrite normalize_map. destruct tok; [contradiction | discriminate].
Qed.

(** A line that is one well-formed entry gives that entry. *)
Lemma wellformed_output (lead ip ws tok trail : str) :
  forallb (fun c => negb (Uni.isdecimal c)) lead = true ->
  forallb (fun c => negb (Uni.islinebreak c)) lead = true ->
  dotted_quad ip -> run isblank ws -> run ismacchar tok ->
  Re.span ismacchar trail = 0 ->
  forallb (fun c => negb (Uni.islinebreak c)) trail = true ->
  parsed_pairs (lead ++ ip ++ ws ++ tok ++ trail) = [(ip, tok)].
Proof.
  intros L1 L2 Q [WN WF] T Z B.
  assert (run Uni.isspace ws) as W.
  { split; [exact WN|]. revert WF. apply forallb_impl.
    intros c H. apply andb_true_iff in H as [H _]. exact H. }
  assert (forallb (fun c => negb (Uni.islinebreak c)) ws = true) as WB.
  { revert WF. apply forallb_impl.
    intros c H. apply andb_true_iff in H as [_ H]. exact H. }
  assert (forallb (fun c => negb (Uni.islinebreak c)) tok = true) as TB.
  { destruct T as [_ F]. revert F. apply forallb_impl.
    intros c H. rewrite (macchar_not_linebreak c H). reflexivity. }
  unfold parsed_pairs. rewrite splitlines_one_line.
  - unfold parsed_lines. cbn [flat_map].
    rewrite (parse_wellformed lead ip ws tok trail L1 Q W T Z).
    reflexivity.
  - pose proof (dotted_quad_not_nil ip Q) as N.
    destruct lead; [destruct ip; [contradiction | discriminate] | discriminate].
  - rewrite !forallb_app, L2, (dotted_quad_no_break ip Q), WB, TB, B.
    reflexivity.
Qed.

End ListedPairs.

(** C2 fails as stated: the interface header of a Windows ARP table is
    a line that matches, and its pair has the mac [:::]. *)
Lemma listed_mac_not_always_canonical :
  ~ (forall arp_output devices ip mac,
        list_arp_table arp_output = Ok devices ->
        In (ip, mac) devices ->
        is_canonical_mac mac = true).
Proof.
  intros H.
  specialize (H (text "Interface: 192.168.1.5 --- 0xb")
                [(Some (text "192.168.1.5"), text ":::")]
                (Some (text "192.168.1.5")) (text ":::")
                eq_refl (or_introl eq_refl)).
  discriminate H.
Qed.

(** C2, amended.  The mac of every pair returned by [list_arp_table] is
    the normalization of a non-empty token of word characters, dashes
    and colons: it is not empty, holds no dash and no uppercase letter
    [A] to [Z], and is left unchanged by normalization.  That it has six
    groups of two hexadecimal digits is not checked. *)
Theorem listed_mac_shape (arp_output : str) (devices : list device)
        (ip : option str) (mac : str) :
  list_arp_table arp_output = Ok devices ->
  In (ip, mac) devices ->
  (exists tok, run ismacchar tok /\ mac = normalize tok) /\
  mac <> [] /\
  Forall (fun c => c <> "-"%char /\ isasciiupper c = false) mac /\
  normalize mac = mac.
Proof.
  rewrite list_arp_table_eq. intros [= <-] I.
  apply listed_pair_origin in I as (ip' & tok & _ & -> & _ & T).
  split; [exists tok; auto|].
  split; [apply normalize_not_nil, T|].
  split; [apply normalize_plain | apply normalize_idem].
Qed.

Lemma listed_mac_shape_witness :
  let out := text "  192.168.1.1    00-1A-2B-3C-4D-5E   dynamic" in
  let mac := text "00:1a:2b:3c:4d:5e" in
  list_arp_table out = Ok [(Some (text "192.168.1.1"), mac)] /\
  (exists tok, run ismacchar tok /\ mac = normalize tok) /\
  mac <> [] /\
  Forall (fun c => c <> "-"%char /\ isasciiupper c = false) mac /\
  normalize mac = mac.
Proof.
  split; [reflexivity|].
  apply (listed_mac_shape
           (text "  192.168.1.1    00-1A-2B-3C-4D-5E   dynamic")
           [(Some (text "192.168.1.1"), text "00:1a:2b:3c:4d:5e")]
           (Some (text "192.168.1.1"))).
  - reflexivity.
  - left. reflexivity.
Defined.

(** C3 fails as stated: in the interface header of a Windows ARP table
    the token after the address is [---], which is not made of
    hexadecimal groups, and the line produces a pair. *)
Lemma hex_token_not_required :
  ~ (forall line tok,
        token_after_ip line tok ->
        hex_group_token tok = false ->
        ~ produces_pair line).
Proof.
  intros H.
  apply (H (text "Interface: 192.168.1.5 --- 0xb") (text "---")).
  - exists (text "Interface: "), (text "192.168.1.5"), (text " "),
      (text " 0xb").
    split; [reflexivity|]. split.
    + exists (text "192"), (text "168"), (text "1"), (text "5").
      repeat split; try discriminate; reflexivity.
    + repeat split; try discriminate; reflexivity.
  - reflexivity.
  - exists (Some (text "192.168.1.5"), text ":::"). reflexivity.
Qed.

(** C3, amended.  A line produces a pair exactly when it contains four
    non-empty runs of decimal digits separated by dots, then whitespace,
    then a non-empty token of word characters, dashes and colons; a line
    without them produces nothing.  The token is not required to be made
    of hexadecimal groups. *)
Theorem pair_iff_ip_then_token (line : str) :
  (produces_pair line <-> has_ip_then_token line) /\
  (~ has_ip_then_token line -> list_arp_loop [] [line] = Ok []).
Proof.
  assert (produces_pair line -> has_ip_then_token line) as Only.
  { intros [dev H]. rewrite list_arp_loop_eq in H.
    unfold parsed_lines in H. cbn [flat_map] in H.
    destruct (parse_line line) as [[ip tok]|] eqn:P; [|discriminate].
    apply parse_line_some in P as (pre & ws & post & E & Q & W & T).
    exists pre, ip, ws, tok, post. auto. }
  assert (has_ip_then_token line -> produces_pair line) as If.
  { intros H. apply search_arp_complete in H as [m H].
    apply parse_line_search in H as (ip & tok & _ & P).
    exists (device_of (ip, tok)). rewrite list_arp_loop_eq.
    unfold parsed_lines. cbn [flat_map]. rewrite P. reflexivity. }
  split; [split; assumption|].
  intros N. rewrite list_arp_loop_eq.
  unfold parsed_lines. cbn [flat_map].
  destruct (parse_line line) as [[ip tok]|] eqn:P; [|reflexivity].
  exfalso. apply N.
  apply parse_line_some in P as (pre & ws & post & E & Q & W & T).
  exists pre, ip, ws, tok, post. auto.
Qed.

Lemma pair_iff_ip_then_token_witness :
  has_ip_then_token (text "10.0.0.7 incomplete") /\
  produces_pair (text "10.0.0.7 incomplete").
Proof.
  assert (has_ip_then_token (text "10.0.0.7 incomplete")) as H.
  { exists [], (text "10.0.0.7"), (text " "), (text "incomplete"), [].
    split; [reflexivity|]. split.
    - exists (text "10"), (text "0"), (text "0"), (text "7").
      repeat split; try discriminate; reflexivity.
    - repeat split; try discriminate; reflexivity. }
  split; [exact H|].
  apply (proj1 (pair_iff_ip_then_token (text "10.0.0.7 incomplete"))).
  exact H.
Defined.

(** C4.  On a line made of a dotted quad, whitespace and a MAC written
    with dashes or colons, in upper or lower case, [list_arp_table]
    returns the quad with the lowercase, colon-separated spelling of the
    MAC, which is in canonical form: all spellings of a MAC give the same
    pair.  In particular the line [192.168.1.5   AA-BB-CC-DD-EE-FF] gives
    [("192.168.1.5", "aa:bb:cc:dd:ee:ff")]. *)
Theorem spellings_normalize_alike :
  (forall (ip ws : str) (sp : spelling) (m : N),
      dotted_quad ip -> run isblank ws ->
      list_arp_table (ip ++ ws ++ spell sp m)
      = Ok [(Some ip, spell canonical_spelling m)] /\
      is_canonical_mac (spell canonical_spelling m) = true)
  /\
  list_arp_table (text "192.168.1.5   AA-BB-CC-DD-EE-FF")
  = Ok [(Some (text "192.168.1.5"), text "aa:bb:cc:dd:ee:ff")].
Proof.
  split; [|reflexivity].
  intros ip ws sp m Q W. split; [|apply spell_canonical].
  rewrite list_arp_table_eq.
  replace (ip ++ ws ++ spell sp m) with ([] ++ ip ++ ws ++ spell sp m ++ [])
    by (rewrite app_nil_r; reflexivity).
  rewrite wellformed_output; auto using spell_run.
  unfold device_of. cbn [map fst snd]. rewrite spell_normalize. reflexivity.
Qed.

Lemma spellings_normalize_alike_witness :
  let shout := {| upper := fun _ => true; dash := fun _ => true |} in
  dotted_quad (text "192.168.1.5") /\
  run isblank (text "   ") /\
  spell shout 0xAABBCCDDEEFF%N = text "AA-BB-CC-DD-EE-FF" /\
  list_arp_table (text "192.168.1.5" ++ text "   "
                  ++ spell shout 0xAABBCCDDEEFF%N)
  = Ok [(Some (text "192.168.1.5"), text "aa:bb:cc:dd:ee:ff")].
Proof.
  intros shout.
  assert (dotted_quad (text "192.168.1.5")) as Q.
  { exists (text "192"), (text "168"), (text "1"), (text "5").
    repeat split; try discriminate; reflexivity. }
  assert (run isblank (text "   ")) as W
    by (split; [discriminate | reflexivity]).
  split; [exact Q|]. split; [exact W|]. split; [reflexivity|].
  apply (proj1 (proj1 spellings_normalize_alike
                  (text "192.168.1.5") (text "   ") shout 0xAABBCCDDEEFF%N
                  Q W)).
Defined.

(** C10.  The IP of every pair returned by [list_arp_table], and every IP
    returned by [get_ip_from_mac], is four non-empty runs of decimal
    digits separated by dots.  Nothing bounds the runs: whatever their
    lengths and values, a dotted quad in front of a MAC is returned as it
    is. *)
Theorem ip_is_dotted_quad :
  (forall arp_output devices oip mac,
      list_arp_table arp_output = Ok devices ->
      In (oip, mac) devices ->
      exists ip, oip = Some ip /\ dotted_quad ip)
  /\
  (forall arp_output target_mac ip,
      get_ip_from_mac arp_output target_mac = Ok (Some ip) ->
      dotted_quad ip)
  /\
  (forall ip,
      dotted_quad ip ->
      list_arp_table (ip ++ text " 00:11:22:33:44:55")
      = Ok [(Some ip, text "00:11:22:33:44:55")] /\
      get_ip_from_mac (ip ++ text " 00:11:22:33:44:55")
                      (text "00:11:22:33:44:55")
      = Ok (Some ip)).
Proof.
  split; [|split].
  - intros arp_output devices oip mac H I.
    rewrite list_arp_table_eq in H. injection H as <-.
    apply listed_pair_origin in I as (ip & tok & E & _ & Q & _).
    exists ip. auto.
  - intros arp_output target_mac ip H.
    rewrite get_ip_from_mac_eq in H. injection H as H.
    apply lookup_device_found, listed_pair_origin in H
      as (ip' & tok & [= ->] & _ & Q & _).
    exact Q.
  - intros ip Q.
    assert (parsed_pairs (ip ++ text " 00:11:22:33:44:55")
            = [(ip, text "00:11:22:33:44:55")]) as P.
    { change (ip ++ text " 00:11:22:33:44:55")
        with ([] ++ ip ++ text " " ++ text "00:11:22:33:44:55" ++ []).
      apply wellformed_output; auto;
        split; try discriminate; reflexivity. }
    rewrite list_arp_table_eq, get_ip_from_mac_eq, P.
    split; reflexivity.
Qed.

Lemma ip_is_dotted_quad_witness :
  dotted_quad (text "999.1234567890.0.256") /\
  list_arp_table (text "999.1234567890.0.256 00:11:22:33:44:55")
  = Ok [(Some (text "999.1234567890.0.256"), text "00:11:22:33:44:55")] /\
  get_ip_from_mac (text "999.1234567890.0.256 00:11:22:33:44:55")
                  (text "00:11:22:33:44:55")
  = Ok (Some (text "999.1234567890.0.256")).
Proof.
  assert (dotted_quad (text "999.1234567890.0.256")) as Q.
  { exists (text "999"), (text "1234567890"), (text "0"), (text "256").
    repeat split; try discriminate; reflexivity. }
  split; [exact Q|].
  apply (proj2 (proj2 ip_is_dotted_quad) (text "999.1234567890.0.256") Q).
Defined.

(** * Further properties of the script *)

(** ** Where a match starts and where it ends *)

Section Extent.

Import Re.

(** The search stops at the first position that matches. *)
Lemma search_from_first (p : list item) (subject s : str) (pos : nat)
      (m : match_obj) :
  search_from p subject s pos = Some m ->
  exists pre s',
    s = pre ++ s' /\ m_string m = subject /\
    m_start m = pos + length pre /\
    exec p s' (m_start m) [] = Some (m_end m, m_marks m) /\
    (forall a b, pre = a ++ b -> b <> [] ->
                 exec p (b ++ s') (pos + length a) [] = None).
Proof.
  revert pos. induction s as [|c s IH]; intros pos; simpl.
  - destruct (exec p [] pos []) as [[e mk]|] eqn:E; [|discriminate].
    intros [= <-]. exists [], []. simpl. rewrite Nat.add_0_r.
    repeat split; auto.
    intros a b Eab N. destruct a; destruct b; try discriminate.
    contradiction.
  - destruct (exec p (c :: s) pos []) as [[e mk]|] eqn:E.
    + intros [= <-]. exists [], (c :: s). simpl. rewrite Nat.add_0_r.
      repeat split; auto.
      intros a b Eab N. destruct a; destruct b; try discriminate.
      contradiction.
    + intros H. destruct (IH _ H) as (pre & s' & -> & S1 & S2 & S3 & S4).
      exists (c :: pre), s'. simpl.
      split; [reflexivity|]. split; [exact S1|].
      split; [rewrite S2; lia|]. split; [exact S3|].
      intros a b Eab N. destruct a as [|x a].
      * simpl in Eab. subst b. simpl. rewrite Nat.add_0_r. exact E.
      * simpl in Eab. injection Eab as <- ->.
        replace (pos + length (c :: a)) with (S pos + length a)
          by (simpl; lia).
        apply S4; auto.
Qed.

(** A match takes the whole run of token characters. *)
Lemma exec_arp_inv_max (s : str) (pos e : nat) (mk : marks) :
  exec arp_pattern s pos [] = Some (e, mk) ->
  exists ip ws tok post,
    s = ip ++ ws ++ tok ++ post /\
    dotted_quad ip /\ run Uni.isspace ws /\ run ismacchar tok /\
    span ismacchar post = 0 /\
    e = pos + length ip + length ws + length tok /\
    mk = [ (3, e); (2, pos + length ip + length ws);
           (1, pos + length ip); (0, pos) ].
Proof.
  intros H.
  destruct (exec_arp_inv s pos e mk H)
    as (ip & ws & tok & post & E & Q & W & T & E1 & E2).
  destruct (span_takes_all ismacchar post) as [F Z].
  assert (span ismacchar post = 0) as Z0.
  { pose proof (exec_arp_run ip ws (tok ++ firstn (span ismacchar post) post)
                  (skipn (span ismacchar post) post) pos Q W
                  (run_app _ _ _ T F) Z) as R.
    rewrite <- app_assoc, firstn_skipn, <- E, H in R.
    injection R as R _. rewrite E1, length_app in R.
    pose proof (span_le_length ismacchar post) as L.
    rewrite firstn_length_le in R by exact L. lia. }
  exists ip, ws, tok, post. auto 10.
Qed.

(** Before a match there is no digit that the match could have started
    with. *)
Lemma exec_arp_extend_left (c : ascii) (s : str) (pos pos' e : nat)
      (mk : marks) :
  Uni.isdecimal c = true ->
  exec arp_pattern s pos [] = Some (e, mk) ->
  exec arp_pattern (c :: s) pos' [] <> None.
Proof.
  intros C H.
  destruct (exec_arp_inv_max s pos e mk H)
    as (ip & ws & tok & post & -> & Q & W & T & Z & _ & _).
  destruct Q as (d1 & d2 & d3 & d4 & [N1 F1] & R2 & R3 & R4 & ->).
  assert (dotted_quad
            ((c :: d1) ++ "."%char :: d2 ++ "."%char :: d3 ++ "."%char :: d4))
    as Q.
  { exists (c :: d1), d2, d3, d4.
    split; [|auto]. split; [discriminate|].
    simpl. rewrite C, F1. reflexivity. }
  pose proof (exec_arp_run _ ws tok post pos' Q W T Z) as R.
  simpl in R. simpl. rewrite R. discriminate.
Qed.

(** What a parsed pair was read from: the token ends where the token
    characters end, and the address does not start inside a run of
    digits. *)
Lemma parse_line_extent (line ip tok : str) :
  parse_line line = Some (ip, tok) ->
  exists pre ws post,
    line = pre ++ ip ++ ws ++ tok ++ post /\
    dotted_quad ip /\ run Uni.isspace ws /\ run ismacchar tok /\
    span ismacchar post = 0 /\
    (forall a c, pre = a ++ [c] -> Uni.isdecimal c = false).
Proof.
  unfold parse_line.
  destruct (search arp_pattern line) as [m|] eqn:H; [|discriminate].
  unfold search in H.
  apply search_from_first in H as (pre & s' & E & S1 & S2 & H & First).
  pose proof H as H'.
  apply exec_arp_inv_max in H'
    as (ip' & ws & tok' & post & -> & Q & W & T & Z & E1 & E2).
  rewrite (groups_of_marks _ _ _ _ _ E2), S1, S2. simpl.
  rewrite (slice_at line pre ip' (ws ++ tok' ++ post) _ _ E eq_refl eq_refl).
  rewrite E1, S2.
  rewrite (slice_at line (pre ++ ip' ++ ws) tok' post);
    [| rewrite E, <- ?app_assoc; reflexivity | lengths | lengths].
  intros [= <- <-]. exists pre, ws, post.
  split; [exact E|]. split; [exact Q|]. split; [exact W|].
  split; [exact T|]. split; [exact Z|].
  intros a c Ea. destruct (Uni.isdecimal c) eqn:C; [|reflexivity].
  exfalso.
  apply (exec_arp_extend_left c _ _ (0 + length a) _ _ C H).
  apply (First a [c] Ea). discriminate.
Qed.

End Extent.

(** ** Lines, once more *)

Section LineFeeds.

Lemma splitlines_from_lf (cur b : str) :
  PyStr.splitlines_from cur (LF :: b) = rev cur :: PyStr.splitlines b.
Proof. destruct b; reflexivity. Qed.

(** A line without boundaries, closed by a line feed, is the first
    line. *)
Lemma splitlines_from_line (cur l b : str) :
  no_linebreak l ->
  PyStr.splitlines_from cur (l ++ LF :: b)
  = (rev cur ++ l) :: PyStr.splitlines b.
Proof.
  unfold no_linebreak. revert cur.
  induction l as [|c l IH]; intros cur H.
  - rewrite app_nil_r. apply splitlines_from_lf.
  - simpl in H. apply andb_true_iff in H as [C H].
    apply negb_true_iff in C.
    cbn [app PyStr.splitlines_from]. rewrite C, (IH _ H). simpl.
    rewrite <- app_assoc. reflexivity.
Qed.

Lemma splitlines_line (l b : str) :
  no_linebreak l -> PyStr.splitlines (l ++ LF :: b) = l :: PyStr.splitlines b.
Proof. intros H. apply (splitlines_from_line [] l b H). Qed.

(** A line feed between two texts separates their lines; it adds an
    empty line when the first text is empty or ends with a boundary
    other than a carriage return. *)
Lemma splitlines_from_app_lf (n : nat) (a cur b : str) :
  length a <= n ->
  exists e,
    (e = [] \/ e = [[]]) /\
    PyStr.splitlines_from cur (a ++ LF :: b)
    = PyStr.splitlines_from cur a ++ e ++ PyStr.splitlines b.
Proof.
  revert a cur. induction n as [|n IH]; intros a cur L.
  - destruct a; [|simpl in L; lia]. simpl app at 1.
    rewrite splitlines_from_lf. destruct cur as [|x cur].
    + exists [[]]. auto.
    + exists []. auto.
  - destruct a as [|c a].
    + simpl app at 1. rewrite splitlines_from_lf. destruct cur as [|x cur].
      * exists [[]]. auto.
      * exists []. auto.
    + simpl in L. cbn [app PyStr.splitlines_from].
      destruct (Uni.islinebreak c) eqn:B.
      * destruct a as [|d a].
        -- cbn [app]. fold LF.
           destruct (Ascii.eqb c "013") eqn:CR.
           ++ exists []. split; [auto|].
              change (Ascii.eqb LF "010") with true. reflexivity.
           ++ exists [[]]. split; [auto|]. cbn [andb].
              rewrite splitlines_from_lf. reflexivity.
        -- cbn [app].
           destruct (Ascii.eqb c "013" && Ascii.eqb d "010").
           ++ destruct (IH a [] ltac:(simpl in L; lia)) as (e & He & E).
              exists e. split; [exact He|]. rewrite E. reflexivity.
           ++ destruct (IH (d :: a) [] ltac:(simpl in *; lia)) as (e & He & E).
              exists e. split; [exact He|].
              change (d :: a ++ LF :: b) with ((d :: a) ++ LF :: b).
              rewrite E. reflexivity.
      * destruct (IH a (c :: cur) ltac:(lia)) as (e & He & E).
        exists e. split; [exact He|]. exact E.
Qed.

(** No line handed to the pattern holds a line boundary. *)
Lemma splitlines_from_no_linebreak (n : nat) (s cur : str) :
  length s <= n ->
  no_linebreak cur ->
  Forall no_linebreak (PyStr.splitlines_from cur s).
Proof.
  unfold no_linebreak.
  assert (forall cur, forallb (fun c => negb (Uni.islinebreak c)) cur = true ->
                      forallb (fun c => negb (Uni.islinebreak c)) (rev cur)
                      = true) as Rev.
  { intros cur0 H. rewrite forallb_forall in *.
    intros x I. apply H, in_rev, I. }
  revert s cur. induction n as [|n IH]; intros s cur L C.
  - destruct s; [|simpl in L; lia]. simpl.
    destruct cur; constructor; [apply Rev, C | constructor].
  - destruct s as [|c s].
    + simpl. destruct cur; constructor; [apply Rev, C | constructor].
    + simpl in L. cbn [PyStr.splitlines_from].
      destruct (Uni.islinebreak c) eqn:B.
      * destruct s as [|d s].
        -- constructor; [apply Rev, C|]. simpl. constructor.
        -- destruct (Ascii.eqb c "013" && Ascii.eqb d "010");
             (constructor; [apply Rev, C|]); apply IH;
             simpl in *; try lia; reflexivity.
      * apply IH; [lia|]. simpl. rewrite B, C. reflexivity.
Qed.

Lemma splitlines_no_linebreak (s : str) :
  Forall no_linebreak (PyStr.splitlines s).
Proof.
  apply (splitlines_from_no_linebreak (length s)); [lia | reflexivity].
Qed.

Lemma parsed_lines_app (l1 l2 : list str) :
  parsed_lines (l1 ++ l2) = parsed_lines l1 ++ parsed_lines l2.
Proof. apply flat_map_app. Qed.

(** The pairs of two texts joined by a line feed are the pairs of the
    first followed by the pairs of the second. *)
Lemma parsed_pairs_lf (a b : str) :
  parsed_pairs (a ++ LF :: b) = parsed_pairs a ++ parsed_pairs b.
Proof.
  unfold parsed_pairs, PyStr.splitlines.
  destruct (splitlines_from_app_lf (length a) a [] b (le_n _))
    as (e & [-> | ->] & ->); rewrite !parsed_lines_app; reflexivity.
Qed.

Lemma lookup_device_app (target : str) (p1 p2 : list (str * str)) :
  lookup_device target (map device_of (p1 ++ p2))
  = match lookup_device target (map device_of p1) with
    | Some ip => Some ip
    | None => lookup_device target (map device_of p2)
    end.
Proof.
  induction p1 as [|[ip mac] p1 IH]; [reflexivity|].
  cbn [app map device_of lookup_device fst snd].
  destruct (str_eqb (normalize mac) target); [reflexivity | exact IH].
Qed.

End LineFeeds.

(** ** Where a listed pair comes from *)

Section Sources.

Lemma forallb_app_parts (f : ascii -> bool) (a b c : str) :
  forallb f (a ++ b ++ c) = true -> forallb f b = true.
Proof.
  rewrite !forallb_app. intros H.
  apply andb_true_iff in H as [_ H]. apply andb_true_iff in H as [H _].
  exact H.
Qed.

(** Every listed pair was read from one line of the output: the address,
    whitespace of that line, and the token in full. *)
Lemma listed_pair_source (arp_output : str) (oip : option str) (mac : str) :
  In (oip, mac) (map device_of (parsed_pairs arp_output)) ->
  exists line pre ip ws tok post,
    In line (PyStr.splitlines arp_output) /\ no_linebreak line /\
    line = pre ++ ip ++ ws ++ tok ++ post /\
    oip = Some ip /\ mac = normalize tok /\
    dotted_quad ip /\ run isblank ws /\ run ismacchar tok /\
    Re.span ismacchar post = 0 /\
    (forall a c, pre = a ++ [c] -> Uni.isdecimal c = false).
Proof.
  rewrite in_map_iff. intros ([ip tok] & E & I). injection E as <- <-.
  apply parsed_lines_in in I as (line & I & P).
  apply parse_line_extent in P
    as (pre & ws & post & E & Q & [WN WF] & T & Z & D).
  assert (no_linebreak line) as NB.
  { pose proof (splitlines_no_linebreak arp_output) as F.
    rewrite Forall_forall in F. apply F, I. }
  exists line, pre, ip, ws, tok, post.
  repeat (split; [solve [auto]|]). split; [|auto].
  split; [exact WN|]. unfold isblank.
  assert (forallb (fun c => negb (Uni.islinebreak c)) ws = true) as WB.
  { unfold no_linebreak in NB. rewrite E in NB.
    replace (pre ++ ip ++ ws ++ tok ++ post)
      with ((pre ++ ip) ++ ws ++ tok ++ post) in NB
      by (rewrite <- app_assoc; reflexivity).
    apply forallb_app_parts in NB. exact NB. }
  rewrite forallb_forall in *. intros c Ic.
  rewrite (WF c Ic), (WB c Ic). reflexivity.
Qed.

Lemma normalize_char_macchar (c : ascii) :
  ismacchar (normalize_char c) = ismacchar c.
Proof. each_char c. Qed.

Lemma normalize_char_clean (c : ascii) :
  normalize_char c <> "-"%char /\
  Uni.tolower (normalize_char c) = normalize_char c.
Proof. each_char c; split; try discriminate; reflexivity. Qed.

Lemma normalize_macchars (s : str) :
  forallb ismacchar (normalize s) = forallb ismacchar s.
Proof.
  rewrite normalize_map. induction s as [|c s IH]; [reflexivity|].
  simpl. rewrite normalize_char_macchar, IH. reflexivity.
Qed.

Lemma normalize_nil (s : str) : normalize s = [] -> s = [].
Proof. rewrite normalize_map. destruct s; [reflexivity | discriminate]. Qed.

Lemma lookup_device_listed (target : str) (pairs : list (str * str))
      (oip : option str) :
  In (oip, target) (map device_of pairs) ->
  exists ip,
    lookup_device target (map device_of pairs) = Some ip /\
    In (Some ip, target) (map device_of pairs).
Proof.
  induction pairs as [|[ip mac] rest IH]; [intros []|].
  cbn [map device_of lookup_device fst snd In].
  destruct (str_eqb (normalize mac) target) eqn:E.
  - intros _. apply str_eqb_eq in E. exists ip.
    split; [reflexivity|]. left. unfold device_of. simpl. rewrite E.
    reflexivity.
  - intros [H | H].
    + unfold device_of in H. simpl in H. injection H as _ H.
      apply str_eqb_eq in H. congruence.
    + destruct (IH H) as (ip' & L & I). exists ip'. auto.
Qed.

Lemma same_mac_same_ip (devices : list device) (a b : option str)
      (mac : str) :
  NoDup (map snd devices) ->
  In (a, mac) devices -> In (b, mac) devices -> a = b.
Proof.
  induction devices as [|[x m] rest IH]; [intros _ []|].
  simpl. intros N Ia Ib. inversion N as [|? ? Out N']; subst.
  assert (forall y, In (y, m) rest -> False) as Fresh.
  { intros y I. apply Out. apply (in_map snd) in I. exact I. }
  destruct Ia as [Ea | Ia], Ib as [Eb | Ib].
  - congruence.
  - injection Ea as _ ->. destruct (Fresh _ Ib).
  - injection Eb as _ ->. destruct (Fresh _ Ia).
  - apply IH; assumption.
Qed.

End Sources.

(** * Further properties *)

(** X1.  A line made of a lead without digits, a dotted quad, whitespace,
    a token of word characters, dashes and colons, and a trail that does
    not continue the token gives exactly one pair: the quad with the
    normalized token.  Indentation before the address and columns after
    the token do not matter. *)
Theorem entry_line_gives_its_pair (lead ip ws tok trail : str) :
  no_decimal lead -> no_linebreak lead ->
  dotted_quad ip -> run isblank ws -> run ismacchar tok ->
  Re.span ismacchar trail = 0 -> no_linebreak trail ->
  list_arp_table (lead ++ ip ++ ws ++ tok ++ trail)
  = Ok [(Some ip, normalize tok)].
Proof.
  intros L1 L2 Q W T Z B.
  rewrite list_arp_table_eq, (wellformed_output lead ip ws tok trail); auto.
Qed.

Lemma entry_line_gives_its_pair_witness :
  list_arp_table
    (text "  " ++ text "192.168.1.1" ++ text "     "
     ++ text "00-1A-2B-3C-4D-5E" ++ text "   dynamic")
  = Ok [(Some (text "192.168.1.1"), normalize (text "00-1A-2B-3C-4D-5E"))].
Proof.
  apply (entry_line_gives_its_pair
           (text "  ") (text "192.168.1.1") (text "     ")
           (text "00-1A-2B-3C-4D-5E") (text "   dynamic")).
  - reflexivity.
  - reflexivity.
  - exists (text "192"), (text "168"), (text "1"), (text "1").
    repeat split; try discriminate; reflexivity.
  - split; [discriminate | reflexivity].
  - split; [discriminate | reflexivity].
  - reflexivity.
  - reflexivity.
Defined.

(** X2.  Every pair returned by [list_arp_table] was read inside one line
    of the output.  The address does not start inside a run of digits,
    the whitespace after it holds no line boundary, and the token runs up
    to the first character that is no word character, dash or colon. *)
Theorem listed_pair_extent (arp_output : str) (devices : list device)
        (oip : option str) (mac : str) :
  list_arp_table arp_output = Ok devices ->
  In (oip, mac) devices ->
  exists line pre ip ws tok post,
    In line (PyStr.splitlines arp_output) /\ no_linebreak line /\
    line = pre ++ ip ++ ws ++ tok ++ post /\
    oip = Some ip /\ mac = normalize tok /\
    dotted_quad ip /\ run isblank ws /\ run ismacchar tok /\
    Re.span ismacchar post = 0 /\
    (forall a c, pre = a ++ [c] -> Uni.isdecimal c = false).
Proof.
  rewrite list_arp_table_eq. intros [= <-]. apply listed_pair_source.
Qed.

Lemma listed_pair_extent_witness :
  exists line pre ip ws tok post,
    In line (PyStr.splitlines (text "gw 10.0.0.1   AA-BB cc")) /\
    no_linebreak line /\
    line = pre ++ ip ++ ws ++ tok ++ post /\
    Some (text "10.0.0.1") = Some ip /\ text "aa:bb" = normalize tok /\
    dotted_quad ip /\ run isblank ws /\ run ismacchar tok /\
    Re.span ismacchar post = 0 /\
    (forall a c, pre = a ++ [c] -> Uni.isdecimal c = false).
Proof.
  apply (listed_pair_extent (text "gw 10.0.0.1   AA-BB cc")
                            [(Some (text "10.0.0.1"), text "aa:bb")]).
  - reflexivity.
  - left. reflexivity.
Defined.

(** X3.  Listing two outputs joined by a line feed gives the pairs of the
    first followed by the pairs of the second. *)
Theorem list_arp_table_line_feed (a b : str) :
  exists da db,
    list_arp_table a = Ok da /\ list_arp_table b = Ok db /\
    list_arp_table (a ++ LF :: b) = Ok (da ++ db).
Proof.
  exists (map device_of (parsed_pairs a)), (map device_of (parsed_pairs b)).
  rewrite !list_arp_table_eq, parsed_pairs_lf, map_app. auto.
Qed.

(** X4.  A lookup in two outputs joined by a line feed is the lookup in
    the first and, when that finds nothing, the lookup in the second. *)
Theorem get_ip_from_mac_line_feed (a b target_mac : str) :
  get_ip_from_mac (a ++ LF :: b) target_mac
  = match get_ip_from_mac a target_mac with
    | Ok None => get_ip_from_mac b target_mac
    | found => found
    end.
Proof.
  rewrite !get_ip_from_mac_eq, parsed_pairs_lf, lookup_device_app.
  destruct (lookup_device (normalize target_mac)
                          (map device_of (parsed_pairs a))); reflexivity.
Qed.

(** X5.  The lookup does not depend on how the query is spelled: upper or
    lower case, dashes or colons. *)
Theorem lookup_any_spelling (arp_output : str) (sp1 sp2 : spelling) (m : N) :
  get_ip_from_mac arp_output (spell sp1 m)
  = get_ip_from_mac arp_output (spell sp2 m).
Proof. rewrite !get_ip_from_mac_eq, !spell_normalize. reflexivity. Qed.

(** X6.  An address returned by [get_ip_from_mac] is listed by
    [list_arp_table], on the same output, with the normalized query as
    its mac. *)
Theorem lookup_result_is_listed (arp_output target_mac : str)
        (devices : list device) (ip : str) :
  list_arp_table arp_output = Ok devices ->
  get_ip_from_mac arp_output target_mac = Ok (Some ip) ->
  In (Some ip, normalize target_mac) devices.
Proof.
  rewrite list_arp_table_eq, get_ip_from_mac_eq. intros [= <-] [= H].
  apply lookup_device_found, H.
Qed.

Lemma lookup_result_is_listed_witness :
  In (Some (text "10.0.0.2"), normalize (text "AA-BB-CC-00-00-02"))
     [ (Some (text "10.0.0.1"), text "aa:bb:cc:00:00:01");
       (Some (text "10.0.0.2"), text "aa:bb:cc:00:00:02") ].
Proof.
  apply (lookup_result_is_listed
           (text "10.0.0.1 aa-bb-cc-00-00-01" ++ [LF]
            ++ text "10.0.0.2 aa-bb-cc-00-00-02")
           (text "AA-BB-CC-00-00-02")).
  - reflexivity.
  - reflexivity.
Defined.

(** X7.  Every listed pair can be looked up by its mac: the lookup returns
    the address of a pair listed with that mac, and the pair's own
    address when the listed macs are all different. *)
Theorem listed_mac_is_found (arp_output : str) (devices : list device)
        (oip : option str) (mac : str) :
  list_arp_table arp_output = Ok devices ->
  In (oip, mac) devices ->
  exists ip,
    get_ip_from_mac arp_output mac = Ok (Some ip) /\
    In (Some ip, mac) devices /\
    (NoDup (map snd devices) -> oip = Some ip).
Proof.
  rewrite list_arp_table_eq, get_ip_from_mac_eq. intros [= <-] I.
  assert (normalize mac = mac) as Fix.
  { destruct (listed_pair_origin _ _ _ I) as (ip' & tok & _ & -> & _).
    apply normalize_idem. }
  rewrite Fix.
  destruct (lookup_device_listed _ _ _ I) as (ip & L & I').
  exists ip. rewrite L. split; [reflexivity|]. split; [exact I'|].
  intros N. apply (same_mac_same_ip _ _ _ mac N I I').
Qed.

Lemma listed_mac_is_found_witness :
  exists ip,
    get_ip_from_mac (text "10.0.0.1 aa-bb-cc-00-00-01" ++ [LF]
                     ++ text "10.0.0.2 aa-bb-cc-00-00-02")
                    (text "aa:bb:cc:00:00:02")
    = Ok (Some ip) /\
    In (Some ip, text "aa:bb:cc:00:00:02")
       [ (Some (text "10.0.0.1"), text "aa:bb:cc:00:00:01");
         (Some (text "10.0.0.2"), text "aa:bb:cc:00:00:02") ] /\
    (NoDup (map snd [ (Some (text "10.0.0.1"), text "aa:bb:cc:00:00:01");
                      (Some (text "10.0.0.2"), text "aa:bb:cc:00:00:02") ]) ->
     Some (text "10.0.0.2") = Some ip).
Proof.
  apply (listed_mac_is_found
           (text "10.0.0.1 aa-bb-cc-00-00-01" ++ [LF]
            ++ text "10.0.0.2 aa-bb-cc-00-00-02")
           [ (Some (text "10.0.0.1"), text "aa:bb:cc:00:00:01");
             (Some (text "10.0.0.2"), text "aa:bb:cc:00:00:02") ]
           (Some (text "10.0.0.2")) (text "aa:bb:cc:00:00:02")).
  - reflexivity.
  - right. left. reflexivity.
Defined.

(** X8.  The query is not stripped: a query that is empty, or that holds
    a whitespace character (a trailing space or line feed, say), is
    never found. *)
Theorem unstripped_query_not_found (arp_output target_mac : str) :
  target_mac = [] \/ (exists c, In c target_mac /\ Uni.isspace c = true) ->
  get_ip_from_mac arp_output target_mac = Ok None.
Proof.
  intros Bad. rewrite get_ip_from_mac_eq.
  destruct (lookup_device (normalize target_mac)
                          (map device_of (parsed_pairs arp_output)))
    as [ip|] eqn:L; [|reflexivity].
  exfalso.
  apply lookup_device_found, listed_pair_origin in L
    as (ip' & tok & _ & E & _ & [N F]).
  destruct Bad as [-> | (c & I & S)].
  - apply N, normalize_nil. rewrite <- E. reflexivity.
  - rewrite <- normalize_macchars, <- E, normalize_macchars in F.
    rewrite forallb_forall in F.
    rewrite (macchar_not_space c (F c I)) in S. discriminate S.
Qed.

Lemma unstripped_query_not_found_witness :
  get_ip_from_mac (text "10.0.0.1 00:11:22:33:44:55")
                  (text "00:11:22:33:44:55 ")
  = Ok None.
Proof.
  apply (unstripped_query_not_found (text "10.0.0.1 00:11:22:33:44:55")
                                    (text "00:11:22:33:44:55 ")).
  right. exists " "%char. split; [|reflexivity].
  do 17 right. left. reflexivity.
Defined.

(** X9.  Normalizing twice is normalizing once, for every text, and a
    normalized text holds no dash and no character that lowercasing
    would change. *)
Theorem normalize_idempotent (s : str) :
  normalize (normalize s) = normalize s /\
  Forall (fun c => c <> "-"%char /\ Uni.tolower c = c) (normalize s).
Proof.
  split; [apply normalize_idem|].
  rewrite normalize_map. induction s as [|c s IH]; simpl; constructor.
  - apply normalize_char_clean.
  - exact IH.
Qed.

(** ** Tables *)

Section Tables.

Lemma entry_pairs (e : entry) :
  entry_ok e ->
  parsed_pairs (render_entry e)
  = [(e_ip e, spell (e_spelling e) (e_mac e))].
Proof.
  intros (L1 & L2 & Q & W & Z & B). unfold render_entry.
  apply wellformed_output; auto using spell_run.
Qed.

Lemma table_pairs (es : list entry) :
  Forall entry_ok es ->
  parsed_pairs (render_table es)
  = map (fun e => (e_ip e, spell (e_spelling e) (e_mac e))) es.
Proof.
  induction 1 as [|e es Ok_e _ IH]; [reflexivity|].
  cbn [render_table flat_map map]. fold (render_table es).
  rewrite <- app_assoc. cbn [app].
  rewrite parsed_pairs_lf, (entry_pairs e Ok_e), IH. reflexivity.
Qed.

Lemma table_devices (es : list entry) :
  Forall entry_ok es ->
  map device_of (parsed_pairs (render_table es)) = map entry_device es.
Proof.
  intros H. rewrite (table_pairs es H), map_map. apply map_ext.
  intros e. unfold device_of, entry_device. simpl.
  rewrite spell_normalize. reflexivity.
Qed.

(** The lookup of the canonical spelling of an entry's MAC stops at the
    first entry that has that spelling. *)
Lemma lookup_entry (es : list entry) (e : entry) :
  In e es ->
  exists e',
    In e' es /\
    spell canonical_spelling (e_mac e') = spell canonical_spelling (e_mac e) /\
    lookup_device (spell canonical_spelling (e_mac e)) (map entry_device es)
    = Some (e_ip e').
Proof.
  induction es as [|x es IH]; [intros []|].
  intros I. cbn [map lookup_device]. unfold entry_device at 1.
  destruct (str_eqb (spell canonical_spelling (e_mac x))
                    (spell canonical_spelling (e_mac e))) eqn:E.
  - apply str_eqb_eq in E. exists x. split; [left; reflexivity|]. auto.
  - destruct I as [-> | I].
    + assert (str_eqb (spell canonical_spelling (e_mac e))
                      (spell canonical_spelling (e_mac e)) = true) as R
        by (apply str_eqb_eq; reflexivity).
      congruence.
    + destruct (IH I) as (e' & I' & S & L).
      exists e'. split; [right; exact I'|]. auto.
Qed.

End Tables.

(** X10.  Writing a table of well-formed entries, one per line, and
    listing it gives back the entries in their order: each address with
    the lowercase, colon-separated spelling of its MAC. *)
Theorem rendered_table_is_listed (es : list entry) :
  Forall entry_ok es ->
  list_arp_table (render_table es) = Ok (map entry_device es).
Proof.
  intros H. rewrite list_arp_table_eq, (table_devices es H). reflexivity.
Qed.

(** X11.  In a written table, the lookup of the MAC of an entry, in any
    spelling, returns the address of that entry, provided the entries
    that have the same MAC have the same address. *)
Theorem rendered_entry_is_found (es : list entry) (e : entry) (sp : spelling) :
  Forall entry_ok es ->
  In e es ->
  (forall e', In e' es ->
              spell canonical_spelling (e_mac e')
              = spell canonical_spelling (e_mac e) ->
              e_ip e' = e_ip e) ->
  get_ip_from_mac (render_table es) (spell sp (e_mac e))
  = Ok (Some (e_ip e)).
Proof.
  intros H I Same.
  rewrite get_ip_from_mac_eq, (table_devices es H), spell_normalize.
  destruct (lookup_entry es e I) as (e' & I' & S & L).
  rewrite L, (Same e' I' S). reflexivity.
Qed.

Lemma rendered_table_is_listed_witness :
  render_table sample_table
  = text "  192.168.1.1          00-1A-2B-3C-4D-5E     dynamic" ++ [LF]
    ++ text "10.0.0.7 aa:bb:cc:dd:ee:ff" ++ [LF] /\
  list_arp_table (render_table sample_table)
  = Ok [ (Some (text "192.168.1.1"), text "00:1a:2b:3c:4d:5e");
         (Some (text "10.0.0.7"), text "aa:bb:cc:dd:ee:ff") ].
Proof.
  split; [reflexivity|].
  apply (rendered_table_is_listed sample_table).
  constructor; [|constructor; [|constructor]].
  - repeat split; try discriminate; try reflexivity.
    exists (text "192"), (text "168"), (text "1"), (text "1").
    repeat split; try discriminate; reflexivity.
  - repeat split; try discriminate; try reflexivity.
    exists (text "10"), (text "0"), (text "0"), (text "7").
    repeat split; try discriminate; reflexivity.
Defined.

Lemma rendered_entry_is_found_witness :
  get_ip_from_mac (render_table sample_table) (text "AA-BB-CC-DD-EE-FF")
  = Ok (Some (text "10.0.0.7")).
Proof.
  apply (rendered_entry_is_found
           sample_table bare_entry
           {| upper := fun _ => true; dash := fun _ => true |}).
  - constructor; [|constructor; [|constructor]].
    + repeat split; try discriminate; try reflexivity.
      exists (text "192"), (text "168"), (text "1"), (text "1").
      repeat split; try discriminate; reflexivity.
    + repeat split; try discriminate; try reflexivity.
      exists (text "10"), (text "0"), (text "0"), (text "7").
      repeat split; try discriminate; reflexivity.
  - right. left. reflexivity.
  - intros e' [<- | [<- | []]] S.
    + vm_compute in S. discriminate S.
    + reflexivity.
Defined.

(** ** What the script prints *)

Section Printing.

(** While [sys.stdout] can encode the lines, each pair adds its line. *)
Lemma print_devices_eq (encodable : str -> bool) (stdout : str)
      (devices : list device) :
  Forall (fun d => encodable (device_line d) = true) devices ->
  print_devices encodable stdout devices
  = (stdout ++ flat_map (fun d => device_line d ++ [LF]) devices, None).
Proof.
  intros H. revert stdout.
  induction H as [|d rest Hd _ IH]; intros stdout.
  - simpl. rewrite app_nil_r. reflexivity.
  - cbn [print_devices flat_map]. unfold print. rewrite Hd, IH.
    rewrite <- !app_assoc. reflexivity.
Qed.

(** Printed lines that hold no line boundary are read back as they were
    printed. *)
Lemma splitlines_printed (devices : list device) (rest : str) :
  Forall (fun d => no_linebreak (device_line d)) devices ->
  PyStr.splitlines (flat_map (fun d => device_line d ++ [LF]) devices ++ rest)
  = map device_line devices ++ PyStr.splitlines rest.
Proof.
  induction 1 as [|d ds Hd _ IH]; [reflexivity|].
  cbn [flat_map map app]. rewrite <- !app_assoc. cbn [app].
  rewrite (splitlines_line _ _ Hd), IH. reflexivity.
Qed.

Lemma normalize_char_no_linebreak (c : ascii) :
  ismacchar c = true -> Uni.islinebreak (normalize_char c) = false.
Proof.
  intros H. apply macchar_not_linebreak.
  rewrite normalize_char_macchar. exact H.
Qed.

Lemma normalize_no_linebreak (tok : str) :
  run ismacchar tok -> no_linebreak (normalize tok).
Proof.
  intros [_ F]. unfold no_linebreak. rewrite normalize_map.
  induction tok as [|c tok IH]; [reflexivity|].
  simpl in *. apply andb_true_iff in F as [C F].
  rewrite (normalize_char_no_linebreak c C), (IH F). reflexivity.
Qed.

Lemma device_line_no_linebreak (arp_output : str) (d : device) :
  In d (map device_of (parsed_pairs arp_output)) ->
  no_linebreak (device_line d).
Proof.
  destruct d as [oip mac]. intros I.
  apply listed_pair_origin in I as (ip & tok & -> & -> & Q & T).
  unfold no_linebreak, device_line. cbn [fst snd py_str].
  rewrite !forallb_app, (dotted_quad_no_break ip Q).
  rewrite (normalize_no_linebreak tok T). reflexivity.
Qed.

Lemma found_no_linebreak (arp_output target_mac : str) :
  no_linebreak
    (py_str (lookup_device (normalize target_mac)
                           (map device_of (parsed_pairs arp_output)))).
Proof.
  destruct (lookup_device _ _) as [ip|] eqn:L; [|reflexivity].
  apply lookup_device_found, listed_pair_origin in L
    as (ip' & tok & [= <-] & _ & Q & _).
  apply dotted_quad_no_break, Q.
Qed.

End Printing.

(** X12.  The statements that close the module print one line for each
    pair listed from the first run of the command, in order, then one
    line with the address found in the second run for
    [00:11:22:33:44:55], or [None].  When both outputs decode and
    [sys.stdout] can encode these lines, the text written, read back
    line by line, is exactly these lines, and no exception ends the
    run.  When the first output does not decode, nothing is written
    before [UnicodeDecodeError]; when only the second does not, the
    lines of the pairs are written before it. *)
Theorem main_prints_one_line_per_pair (decode : codec)
        (encodable : str -> bool) (raw1 raw2 : list Byte.byte) :
  (decode raw1 = None ->
   main decode encodable raw1 raw2 = ([], Some UnicodeDecodeError))
  /\
  (forall arp_output1,
      decode raw1 = Some arp_output1 ->
      exists devices,
        list_arp_table arp_output1 = Ok devices /\
        (Forall (fun d => encodable (device_line d) = true) devices ->
         (decode raw2 = None ->
          exists stdout,
            main decode encodable raw1 raw2
            = (stdout, Some UnicodeDecodeError) /\
            PyStr.splitlines stdout = map device_line devices)
         /\
         (forall arp_output2,
             decode raw2 = Some arp_output2 ->
             exists found,
               get_ip_from_mac arp_output2 (text "00:11:22:33:44:55")
               = Ok found /\
               (encodable (py_str found) = true ->
                exists stdout,
                  main decode encodable raw1 raw2 = (stdout, None) /\
                  PyStr.splitlines stdout
                  = map device_line devices ++ [py_str found])))).
Proof.
  unfold main, list_arp_table_call, get_ip_from_mac_call, popen_read.
  split.
  - intros E. rewrite E. reflexivity.
  - intros arp_output1 E1. rewrite E1. cbn [bind].
    rewrite list_arp_table_eq.
    eexists. split; [reflexivity|]. intros Enc.
    rewrite (print_devices_eq _ _ _ Enc). cbn [app].
    assert (Forall (fun d => no_linebreak (device_line d))
                   (map device_of (parsed_pairs arp_output1))) as NB.
    { rewrite Forall_forall. intros d I.
      apply (device_line_no_linebreak arp_output1 d I). }
    split.
    + intros E2. rewrite E2. cbn [bind]. eexists. split; [reflexivity|].
      rewrite <- (app_nil_r (flat_map _ _)).
      rewrite (splitlines_printed _ [] NB). apply app_nil_r.
    + intros arp_output2 E2. rewrite E2. cbn [bind].
      rewrite get_ip_from_mac_eq.
      eexists. split; [reflexivity|]. intros EncF.
      unfold print. rewrite EncF. eexists. split; [reflexivity|].
      rewrite (splitlines_printed _ _ NB). f_equal.
      apply (splitlines_line _ []), found_no_linebreak.
Qed.

Lemma main_prints_one_line_per_pair_witness :
  let raw :=
    octets "10.0.0.1 AA-BB" ++ [Byte.x0d; Byte.x0a]
    ++ octets "10.0.0.2   00-11-22-33-44-55" in
  exists stdout,
    main ascii_codec (fun _ => true) raw raw = (stdout, None) /\
    PyStr.splitlines stdout
    = [ text "IP: 10.0.0.1  MAC: aa:bb";
        text "IP: 10.0.0.2  MAC: 00:11:22:33:44:55";
        text "10.0.0.2" ].
Proof.
  intros raw.
  destruct (proj2 (main_prints_one_line_per_pair
                     ascii_codec (fun _ => true) raw raw)
                  _ eq_refl)
    as (devices & L & H).
  vm_compute in L. injection L as <-.
  destruct (proj2 (H ltac:(repeat constructor)) _ eq_refl) as (found & G & P).
  vm_compute in G. injection G as <-.
  exact (P eq_refl).
Defined.
